(** * caravel-sim-infrastructure: the cocotb test harness

    A shallow embedding of the parts of
      - [scripts/verify_cocotb/RunTest.py]  (class [RunTest])
      - [interfaces/openframe.py]           (class [OpenFrame_env])
    that the specification makes claims about, and the proofs of those claims.

    Conventions of the embedding.
      - A Python [str] is a [string]; a character is one byte-sized code
        point.  File contents are [string]s as well.  Writing in text mode
        stores the text as it is (a POSIX system); reading in text mode
        turns the line ends [\r\n] and [\r] into [\n].
      - A Python [int] is a [Z].
      - Code that raises returns [Raise e]; the state reached before the
        exception is kept next to it.
      - The file system is a finite map from paths to nodes.  A node is a
        regular file or a file that [open] refuses with [PermissionError].
        For a path without a regular file the world says besides why
        [open] fails there when it is not for the file alone: the path is a
        directory, a regular file or no directory is on the way to it.
      - What the harness does to the outside (printing, driving a signal,
        starting the compiler) is recorded as an event. *)

From Stdlib Require Import ZArith String Ascii List Lia Bool DecimalString.
From stdpp Require Import base gmap strings list sorting.

Open Scope string_scope.
Open Scope list_scope.

(** ** Exceptions and the state-and-error monad *)

Inductive exn : Type :=
| FileNotFoundError (filename : string)
| PermissionError (filename : string)
| RuntimeError (msg : string)
| AttributeError (name : string)
| IsADirectoryError (filename : string)
| NotADirectoryError (filename : string)
| OSError (errno : Z) (filename : string).

Inductive outcome (A : Type) : Type :=
| Ok (a : A)
| Raise (e : exn).
Arguments Ok {A} a.
Arguments Raise {A} e.

(** A computation reads a state, and gives back an outcome and the state it
    left behind (also when it raises). *)
Definition M (St A : Type) : Type := St -> outcome A * St.

Definition ret {St A : Type} (a : A) : M St A := fun s => (Ok a, s).

Definition raise {St A : Type} (e : exn) : M St A := fun s => (Raise e, s).

Definition bind {St A B : Type} (m : M St A) (k : A -> M St B) : M St B :=
  fun s => match m s with
           | (Ok a, s') => k a s'
           | (Raise e, s') => (Raise e, s')
           end.

Definition get {St : Type} : M St St := fun s => (Ok s, s).

Definition modify {St : Type} (f : St -> St) : M St unit := fun s => (Ok tt, f s).

(** [try_except m h] is [try: m  except <e>: h e]; the handler decides which
    exceptions it lets through by raising them again. *)
Definition try_except {St A : Type} (m : M St A) (h : exn -> M St A) : M St A :=
  fun s => match m s with
           | (Ok a, s') => (Ok a, s')
           | (Raise e, s') => h e s'
           end.

Declare Scope py_scope.
Delimit Scope py_scope with py.
Notation "'let*' x ':=' m 'in' k" := (bind m (fun x => k))
  (at level 10, x name, m at level 100, k at level 200) : py_scope.
Notation "m ;;; k" := (bind m (fun _ => k))
  (at level 200, k at level 200, right associativity) : py_scope.
Open Scope py_scope.

(** [for x in xs: body x] *)
Fixpoint for_each {St A : Type} (xs : list A) (body : A -> M St unit) : M St unit :=
  match xs with
  | [] => ret tt
  | x :: xs' => body x ;;; for_each xs' body
  end.

(** ** Python values that the code compares across types *)

Inductive pyval : Type :=
| PyInt (z : Z)
| PyStr (s : string).

(** [a == b]: an [int] never equals a [str]. *)
Definition py_eq (a b : pyval) : bool :=
  match a, b with
  | PyInt x, PyInt y => Z.eqb x y
  | PyStr x, PyStr y => String.eqb x y
  | _, _ => false
  end.

(** [str(n)] and [f"{n}"] for an [int]. *)
Definition str_of_int (n : Z) : string := NilZero.string_of_int (Z.to_int n).

(** ** Strings *)

Module Str.

(** [c.isspace()] for a code point below 256. *)
Definition isspace (c : ascii) : bool :=
  let n := nat_of_ascii c in
  (Nat.leb 9 n && Nat.leb n 13) || (Nat.leb 28 n && Nat.leb n 32)
  || Nat.eqb n 133 || Nat.eqb n 160.

Definition is_empty (s : string) : bool :=
  match s with EmptyString => true | String _ _ => false end.

(** [s.lstrip()] *)
Fixpoint lstrip (s : string) : string :=
  match s with
  | EmptyString => EmptyString
  | String c s' => if isspace c then lstrip s' else s
  end.

(** [s.rstrip()]: a character goes when it is white and all that follows
    it went. *)
Fixpoint rstrip (s : string) : string :=
  match s with
  | EmptyString => EmptyString
  | String c s' =>
      let r := rstrip s' in
      if is_empty r && isspace c then EmptyString else String c r
  end.

(** [s.strip()] *)
Definition strip (s : string) : string := rstrip (lstrip s).

(** [s[:n]] and [s[n:]] *)
Fixpoint take (n : nat) (s : string) : string :=
  match n, s with
  | S n', String c s' => String c (take n' s')
  | _, _ => EmptyString
  end.

Fixpoint drop (n : nat) (s : string) : string :=
  match n, s with
  | S n', String _ s' => drop n' s'
  | _, _ => s
  end.

(** [longer.startswith(shorter)] *)
Fixpoint startswith (longer shorter : string) {struct shorter} : bool :=
  match shorter, longer with
  | EmptyString, _ => true
  | String c p, String d l => Ascii.eqb c d && startswith l p
  | String _ _, EmptyString => false
  end.

(** ["-" * n] and the like *)
Fixpoint repeat (c : ascii) (n : nat) : string :=
  match n with
  | O => EmptyString
  | S n' => String c (repeat c n')
  end.

Definition newline : string := String (ascii_of_nat 10) EmptyString.

(** What text mode makes of the bytes it reads (universal newlines):
    [\r\n] and a lone [\r] come out as [\n]. *)
Fixpoint universal_newlines (s : string) : string :=
  match s with
  | EmptyString => EmptyString
  | String c s' =>
      if Nat.eqb (nat_of_ascii c) 13 then
        match s' with
        | String d _ =>
            if Nat.eqb (nat_of_ascii d) 10 then universal_newlines s'
            else String (ascii_of_nat 10) (universal_newlines s')
        | EmptyString => String (ascii_of_nat 10) EmptyString
        end
      else String c (universal_newlines s')
  end.

End Str.

(** ** The outside world of [RunTest] *)

(** What [open] finds at a path. *)
Inductive node : Type :=
| Regular (content : string)   (* a regular file that can be read and written *)
| Denied.                      (* a regular file that [open] refuses *)

(** A child process as the harness sees it: the lines [readline] returns
    (decoded, each with its line end) and the exit code. *)
Record process : Type := {
  stdout_lines : list string;
  returncode : Z
}.

(** The external programs the harness starts. *)
Inductive tool : Type :=
| Iverilog   (* iverilog ... -o sim.vvp *)
| Vvp        (* vvp ... sim.vvp *)
| Vlogan     (* vlogan ... *)
| Vcs        (* vcs ... -o simv *)
| Simv.      (* simv ... *)

(** [subprocess.Popen] started the command of a tool. *)
Inductive event : Type :=
| Spawned (t : tool).

(** Why [open] fails at a path that holds no regular file, when it is not
    only that the file is missing. *)
Inductive refusal : Type :=
| NoEntry                 (* ENOENT: a directory on the way to the path is missing *)
| NoAccess                (* EACCES: a directory on the way is closed to the process *)
| IsDirectory             (* EISDIR: the path is a directory *)
| NotDirectory            (* ENOTDIR: a regular file is on the way to the path *)
| OtherError (errno : Z). (* ELOOP, ENAMETOOLONG and the like *)

(** The exception that [open(filename, ...)] raises for it. *)
Definition os_error (k : refusal) (filename : string) : exn :=
  match k with
  | NoEntry => FileNotFoundError filename
  | NoAccess => PermissionError filename
  | IsDirectory => IsADirectoryError filename
  | NotDirectory => NotADirectoryError filename
  | OtherError errno => OSError errno filename
  end.

Record world : Type := {
  files : gmap string node;
  console : list string;          (* lines printed, oldest first *)
  COMPILE_LOCK : gset string;     (* RunTest.COMPILE_LOCK *)
  events : list event;            (* processes started, oldest first *)
  (* for a path without a regular file: *)
  read_refusal : gmap string refusal;   (* why it cannot be opened for reading,
                                           when not for the file being missing *)
  write_refusal : gmap string refusal   (* why no file can be made there *)
}.

Definition set_files (f : gmap string node -> gmap string node) (w : world) : world :=
  {| files := f (files w); console := console w;
     COMPILE_LOCK := COMPILE_LOCK w; events := events w;
     read_refusal := read_refusal w; write_refusal := write_refusal w |}.

Definition set_console (f : list string -> list string) (w : world) : world :=
  {| files := files w; console := f (console w);
     COMPILE_LOCK := COMPILE_LOCK w; events := events w;
     read_refusal := read_refusal w; write_refusal := write_refusal w |}.

Definition set_lock (f : gset string -> gset string) (w : world) : world :=
  {| files := files w; console := console w;
     COMPILE_LOCK := f (COMPILE_LOCK w); events := events w;
     read_refusal := read_refusal w; write_refusal := write_refusal w |}.

Definition set_events (f : list event -> list event) (w : world) : world :=
  {| files := files w; console := console w;
     COMPILE_LOCK := COMPILE_LOCK w; events := f (events w);
     read_refusal := read_refusal w; write_refusal := write_refusal w |}.

(** The interface of a [hashlib] hash object. *)
Class HashAlg : Type := {
  hash_obj : Type;
  hash_new : hash_obj;                          (* hashlib.sha256() *)
  hash_update : hash_obj -> string -> hash_obj; (* h.update(chunk) *)
  hexdigest : hash_obj -> string                (* h.hexdigest() *)
}.

(** What lies outside the harness: the command line the harness builds for
    a tool, as [os.path.expandvars] renders it, and what the started child
    does: its output and exit code, and the files it leaves. *)
Record host : Type := {
  command_text : tool -> string;
  popen : tool -> gmap string node -> process * gmap string node
}.

(** The fields of [self.test] and [self.args] that the modelled methods read. *)
Record test : Type := {
  name : string;
  sim : string;               (* "RTL", "GL" or "GL_SDF" *)
  compilation_dir : string;
  compilation_log : string;
  test_log2 : string;
  hash_log : string;
  netlist : list string
}.

Record args : Type := {
  compile : bool;
  compile_only : bool;
  verbosity : string          (* "quiet", "normal" or "debug" *)
}.

Module bcolors.
Definition ESC : string := String (ascii_of_nat 27) EmptyString.
Definition OKCYAN : string := ESC +:+ "[96m".
Definition OKGREEN : string := ESC +:+ "[92m".
Definition FAIL : string := ESC +:+ "[91m".
Definition ENDC : string := ESC +:+ "[0m".
End bcolors.

(** *** File operations *)

Module Os.

(** [os.path.isfile(path)] *)
Definition isfile (fs : gmap string node) (path : string) : bool :=
  bool_decide (is_Some (fs !! path)).

(** [os.remove(path)].  That the directory may not let the file go is not
    modelled. *)
Definition remove (path : string) : M world unit :=
  modify (set_files (delete path)).

(** [open(path, "rb")] read to the end.  Where there is no regular file
    [open] raises the error of the path: [FileNotFoundError] when nothing
    else is in the way. *)
Definition read (path : string) : M world string :=
  fun w => match files w !! path with
           | None =>
               (Raise (match read_refusal w !! path with
                       | Some k => os_error k path
                       | None => FileNotFoundError path
                       end), w)
           | Some Denied => (Raise (PermissionError path), w)
           | Some (Regular c) => (Ok c, w)
           end.

(** [open(path, "r").read()]: the same in text mode. *)
Definition read_text (path : string) : M world string :=
  let* content := read path in
  ret (Str.universal_newlines content).

(** [with open(path, "w") as f: f.write(text)].  Where there is no file
    one is made, unless the path does not allow it. *)
Definition write (path text : string) : M world unit :=
  fun w => match files w !! path with
           | Some Denied => (Raise (PermissionError path), w)
           | Some (Regular _) => (Ok tt, set_files (insert path (Regular text)) w)
           | None =>
               match write_refusal w !! path with
               | Some k => (Raise (os_error k path), w)
               | None => (Ok tt, set_files (insert path (Regular text)) w)
               end
           end.

(** [open(path, "a")] followed by [write(text)].  A file that is not there
    is made: of the log of a command only the refusal of the file itself is
    modelled, [write_refusal] is not looked at. *)
Definition append (path text : string) : M world unit :=
  fun w => match files w !! path with
           | Some Denied => (Raise (PermissionError path), w)
           | Some (Regular c) => (Ok tt, set_files (insert path (Regular (c +:+ text))) w)
           | None => (Ok tt, set_files (insert path (Regular text)) w)
           end.

(** [print(line)] *)
Definition print (line : string) : M world unit :=
  modify (set_console (fun c => c ++ [line])).

End Os.

(** ** Regular expressions, as far as the harness uses them *)

Module Re.

Inductive regex : Type :=
| Never                              (* matches nothing *)
| Eps                                (* the empty string *)
| Chr (p : ascii -> bool)            (* one character of a class *)
| Cat (r s : regex)
| Alt (r s : regex)
| Star (r : regex).

Fixpoint nullable (r : regex) : bool :=
  match r with
  | Never => false
  | Eps => true
  | Chr _ => false
  | Cat r s => nullable r && nullable s
  | Alt r s => nullable r || nullable s
  | Star _ => true
  end.

Definition cat (r s : regex) : regex :=
  match r, s with
  | Never, _ => Never
  | _, Never => Never
  | Eps, _ => s
  | _, _ => Cat r s
  end.

Definition alt (r s : regex) : regex :=
  match r, s with
  | Never, _ => s
  | _, Never => r
  | _, _ => Alt r s
  end.

(** Brzozowski derivative: what is left of [r] after reading [c]. *)
Fixpoint deriv (c : ascii) (r : regex) : regex :=
  match r with
  | Never => Never
  | Eps => Never
  | Chr p => if p c then Eps else Never
  | Cat r s => alt (cat (deriv c r) s) (if nullable r then deriv c s else Never)
  | Alt r s => alt (deriv c r) (deriv c s)
  | Star r => cat (deriv c r) (Star r)
  end.

(** [re.fullmatch] *)
Fixpoint fullmatch (r : regex) (s : string) : bool :=
  match s with
  | EmptyString => nullable r
  | String c s' => fullmatch (deriv c r) s'
  end.

(** Classes. *)
Definition code (c : ascii) : nat := nat_of_ascii c.
Definition between (lo hi : nat) (c : ascii) : bool :=
  Nat.leb lo (code c) && Nat.leb (code c) hi.
Definition is_char (d c : ascii) : bool := Ascii.eqb d c.
Definition any_char (_ : ascii) : bool := true.
Definition dot (c : ascii) : bool := negb (Nat.eqb (code c) 10).   (* . *)
Definition space (c : ascii) : bool := Str.isspace c.              (* \s *)
Definition digit (c : ascii) : bool := between 48 57 c.            (* \d *)

Fixpoint lit (s : string) : regex :=
  match s with
  | EmptyString => Eps
  | String c s' => Cat (Chr (is_char c)) (lit s')
  end.

Definition plus (r : regex) : regex := Cat r (Star r).

Fixpoint seq (rs : list regex) : regex :=
  match rs with
  | [] => Eps
  | r :: rs' => Cat r (seq rs')
  end.

(** A compiled pattern: [^body$] with either anchor optional. *)
Record pattern : Type := {
  at_start : bool;
  body : regex;
  at_end : bool
}.

Definition anywhere (r : regex) : pattern :=
  {| at_start := false; body := r; at_end := false |}.
Definition from_start (r : regex) : pattern :=
  {| at_start := true; body := r; at_end := false |}.
Definition whole (r : regex) : pattern :=
  {| at_start := true; body := r; at_end := true |}.

(** [p.search(s)] is not [None].  Without [^] the match may start
    anywhere; [$] is the end of the string or the place before a final
    newline. *)
Definition search (p : pattern) (s : string) : bool :=
  fullmatch
    (Cat (if at_start p then Eps else Star (Chr any_char))
       (Cat (body p)
          (if at_end p then Alt Eps (Chr (is_char (ascii_of_nat 10)))
           else Star (Chr any_char))))
    s.

End Re.

(** ** ANSI escape sequences *)

Module Ansi.

Fixpoint run_length (p : ascii -> bool) (s : string) : nat :=
  match s with
  | String c s' => if p c then S (run_length p s') else 0
  | EmptyString => 0
  end.

(** The length of the match of [\x1B[@-_][0-?]*[ -/]*[@-~]] at the head of
    [s].  The three classes are disjoint, so the greedy runs are the only
    way to match. *)
Definition escape_length (s : string) : option nat :=
  match s with
  | String e (String c rest) =>
      if Nat.eqb (nat_of_ascii e) 27 && Re.between 64 95 c then
        let n1 := run_length (Re.between 48 63) rest in
        let rest1 := Str.drop n1 rest in
        let n2 := run_length (Re.between 32 47) rest1 in
        match Str.drop n2 rest1 with
        | String f _ => if Re.between 64 126 f then Some (2 + n1 + n2 + 1) else None
        | EmptyString => None
        end
      else None
  | _ => None
  end.

(** [ansi_escape.sub("", s)], with [skip] characters of a match still to
    drop. *)
Fixpoint sub_from (skip : nat) (s : string) : string :=
  match s with
  | EmptyString => EmptyString
  | String c s' =>
      match skip with
      | S k => sub_from k s'
      | O =>
          match escape_length s with
          | Some n => sub_from (Nat.pred n) s'
          | None => String c (sub_from 0 s')
          end
      end
  end.

Definition strip (s : string) : string := sub_from 0 s.

End Ansi.

(** ** [class RunTest] *)

Module RunTest.
Section Methods.

Context {alg : HashAlg} (sh : host).

(** *** The netlist hash *)

Definition CHUNK : nat := N.to_nat 8192.

(** [while chunk := f.read(8192): hash_func.update(chunk)] over what is
    left of the file. *)
Fixpoint read_loop (fuel : nat) (rest : string) (h : hash_obj) : hash_obj :=
  match fuel with
  | O => h
  | S fuel' =>
      let chunk := Str.take CHUNK rest in
      if Str.is_empty chunk then h
      else read_loop fuel' (Str.drop CHUNK rest) (hash_update h chunk)
  end.

(** Every turn of the loop but the last reads at least one byte. *)
Definition update_from_file (content : string) (h : hash_obj) : hash_obj :=
  read_loop (S (String.length content)) content h.

(** [sorted(netlist)] *)
Definition sorted (netlist : list string) : list string :=
  merge_sort String.le netlist.

Fixpoint hash_files (paths : list string) (h : hash_obj) : M world hash_obj :=
  match paths with
  | [] => ret h
  | file_path :: paths' =>
      let* content := Os.read file_path in
      hash_files paths' (update_from_file content h)
  end.

Definition calculate_netlist_hash (netlist : list string) : M world string :=
  try_except
    (let* h := hash_files (sorted netlist) hash_new in
     ret (hexdigest h))
    (fun e =>
       match e with
       | FileNotFoundError filename => ret ("File not found: " +:+ filename)
       | PermissionError filename => ret ("Permission denied: " +:+ filename)
       | _ => raise e
       end).

Definition write_hash (t : test) (netlist : list string) : M world string :=
  let* new_hash := calculate_netlist_hash netlist in
  Os.write (hash_log t) new_hash ;;;
  ret new_hash.

Definition is_same_hash (t : test) (netlist : list string) : M world bool :=
  let* old_hash :=
    try_except
      (let* text := Os.read_text (hash_log t) in
       ret (PyStr (Str.strip text)))
      (fun e =>
         match e with
         | FileNotFoundError _ => ret (PyInt 0)
         | _ => raise e
         end) in
  let* new_hash := write_hash t netlist in
  ret (py_eq (PyStr new_hash) old_hash).

(** *** The command runner *)

Definition noise_patterns : list Re.pattern :=
  let s_plus := Re.plus (Re.Chr Re.space) in
  let s_star := Re.Star (Re.Chr Re.space) in
  let dots := Re.Star (Re.Chr Re.dot) in
  let star := Re.Chr (Re.is_char "*") in
  [ (* ^-v\s+/ *)
    Re.from_start (Re.seq [Re.lit "-v"; s_plus; Re.lit "/"]);
    (* docker\.io/ *)
    Re.anywhere (Re.lit "docker.io/");
    (* What's next: *)
    Re.anywhere (Re.lit "What's next:");
    (* docker scout *)
    Re.anywhere (Re.lit "docker scout");
    (* View a summary of image *)
    Re.anywhere (Re.lit "View a summary of image");
    (* platform.*does not match *)
    Re.anywhere (Re.seq [Re.lit "platform"; dots; Re.lit "does not match"]);
    (* ^\s*$ *)
    Re.whole s_star;
    (* DeprecationWarning *)
    Re.anywhere (Re.lit "DeprecationWarning");
    (* RuntimeWarning *)
    Re.anywhere (Re.lit "RuntimeWarning");
    (* ^\*+$ *)
    Re.whole (Re.plus star);
    (* ^\*\*\s *)
    Re.from_start (Re.seq [Re.lit "**"; Re.Chr Re.space]);
    (* ^\s+\*\* *)
    Re.from_start (Re.seq [s_plus; Re.lit "**"]);
    (* cocotb\.scheduler\.add *)
    Re.anywhere (Re.lit "cocotb.scheduler.add");
    (* /usr/local/lib/python.*\.py:\d+: *)
    Re.anywhere (Re.seq [Re.lit "/usr/local/lib/python"; dots; Re.lit ".py:";
                         Re.plus (Re.Chr Re.digit); Re.lit ":"]);
    (* ^\s+cocotb\.(scheduler|log) *)
    Re.from_start (Re.seq [s_plus; Re.lit "cocotb.";
                           Re.Alt (Re.lit "scheduler") (Re.lit "log")]);
    (* ===WARNING===.*sky130 *)
    Re.anywhere (Re.seq [Re.lit "===WARNING==="; dots; Re.lit "sky130"]);
    (* ^VCD info: *)
    Re.from_start (Re.lit "VCD info:");
    (* ^\s+self\. *)
    Re.from_start (Re.seq [s_plus; Re.lit "self."]);
    (* ^/opt/homebrew/ *)
    Re.from_start (Re.lit "/opt/homebrew/");
    (* gpi_embed\.cpp *)
    Re.anywhere (Re.lit "gpi_embed.cpp");
    (* GpiCommon\.cpp *)
    Re.anywhere (Re.lit "GpiCommon.cpp");
    (* in gpi_print_registered *)
    Re.anywhere (Re.lit "in gpi_print_registered");
    (* in set_program_name_in_venv *)
    Re.anywhere (Re.lit "in set_program_name_in_venv");
    (* VPI registered *)
    Re.anywhere (Re.lit "VPI registered");
    (* pytest not found *)
    Re.anywhere (Re.lit "pytest not found") ].

(** [any(p.search(clean_line) for p in noise_patterns)] *)
Definition is_noise (clean_line : string) : bool :=
  existsb (fun p => Re.search p clean_line) noise_patterns.

(** [buffered_line] is [None] or a line. *)
Definition is_progressive_duplicate (line1 : string) (line2 : option string) : bool :=
  match line2 with
  | None => false
  | Some line2 =>
      if Str.is_empty line1 || Str.is_empty line2 then false
      else
        let '(shorter, longer) :=
          if Nat.ltb (String.length line1) (String.length line2)
          then (line1, line2) else (line2, line1) in
        Str.startswith longer shorter
        && Nat.ltb (String.length shorter + 2) (String.length longer)
  end.

(** Prints the buffered line if there is one; the buffer is empty after. *)
Definition flush_buffer (buffered_line : option string) : M world (option string) :=
  match buffered_line with
  | Some line => Os.print line ;;; ret None
  | None => ret None
  end.

(** [len(buffered_line or "")] *)
Definition len_or_empty (buffered_line : option string) : nat :=
  match buffered_line with
  | Some line => String.length line
  | None => 0
  end.

(** One turn of the read loop on the line [out]; gives the new buffer. *)
Definition handle_line (log_file : option string) (quiet : bool)
    (buffered_line : option string) (out : string) : M world (option string) :=
  if Str.is_empty out then ret buffered_line
  else
    let clean_line := Str.rstrip (Ansi.strip out) in
    match log_file with
     | Some f =>
         if negb (Str.is_empty clean_line)
         then Os.append f (clean_line +:+ Str.newline)
         else ret tt
     | None => ret tt
     end ;;;
    if negb quiet && negb (Str.is_empty clean_line) then
      if negb (is_noise clean_line) then
        if is_progressive_duplicate clean_line buffered_line then
          if Nat.ltb (len_or_empty buffered_line) (String.length clean_line)
          then ret (Some clean_line)
          else ret buffered_line
        else
          flush_buffer buffered_line ;;;
          ret (Some clean_line)
      else ret buffered_line
    else ret buffered_line.

Fixpoint read_lines (log_file : option string) (quiet : bool)
    (buffered_line : option string) (lines : list string) : M world (option string) :=
  match lines with
  | [] => ret buffered_line
  | out :: lines' =>
      let* b := handle_line log_file quiet buffered_line out in
      read_lines log_file quiet b lines'
  end.

(** [subprocess.Popen(cmd, shell=True, ...)]: the child starts, and what it
    does to the files is there when its output is read. *)
Definition Popen (cmd : tool) : M world process :=
  fun w =>
    let '(proc, fs) := popen sh cmd (files w) in
    (Ok proc, set_events (fun e => e ++ [Spawned cmd]) (set_files (fun _ => fs) w)).

(** [cmd] is given by the tool it starts.  The messages to [logger] are
    not part of the modelled world.  The source opens the log file once and
    writes through the handle; here every write finds the file by its path,
    which is the same as long as the child leaves the log file alone. *)
Definition run_command_write_to_file (cmd : tool) (file : option string)
    (quiet : bool) : M world Z :=
  match file with
   | Some f =>
       Os.append f ("command:" +:+ Str.newline) ;;;
       Os.append f (command_text sh cmd +:+ Str.newline +:+ Str.newline) ;;;
       Os.append f (Str.repeat "-" 60 +:+ Str.newline)
   | None => ret tt
   end ;;;
  let* process := Popen cmd in
  try_except
    (let* b := read_lines file quiet None (stdout_lines process) in
     flush_buffer b ;;;
     ret tt)
    (fun _ => ret tt) ;;;
  ret (returncode process).

(** *** The compile and run steps *)

Definition sim_vvp (t : test) : string := compilation_dir t +:+ "/sim.vvp".
Definition simv (t : test) : string := compilation_dir t +:+ "/simv".

Definition lock (artifact : string) : M world unit :=
  modify (set_lock (fun l => l ∪ {[artifact]})).

(** The command lines are built from paths and macros and stand here as
    [command_text]; building them changes nothing in the world, and neither
    do [write_iverilog_includes_file], [write_vcs_includes_file] and
    [GetDefines], which only add to these command lines. *)
Definition iverilog_compile (a : args) (t : test) : M world unit :=
  let* w := get in
  (if Os.isfile (files w) (sim_vvp t) then Os.remove (sim_vvp t) else ret tt) ;;;
  let* _ := run_command_write_to_file Iverilog (Some (compilation_log t))
              (if String.eqb (verbosity a) "debug" then false else true) in
  ret tt.

Definition iverilog_run (a : args) (t : test) : M world unit :=
  let* _ := run_command_write_to_file Vvp
              (if String.eqb (verbosity a) "quiet" then None else Some (test_log2 t))
              (if String.eqb (verbosity a) "quiet" then true else false) in
  ret tt.

Definition runTest_iverilog (a : args) (t : test) : M world unit :=
  if String.eqb (sim t) "GL_SDF" then
    raise (RuntimeError
             (bcolors.FAIL +:+ "iverilog can't run SDF for test " +:+ name t
              +:+ " Please use anothor simulator like cvc" +:+ bcolors.ENDC))
  else
    let* w := get in
    (if negb (Os.isfile (files w) (sim_vvp t)) then
       Os.print (bcolors.OKCYAN +:+ "Compiling as sim.vvp not found" +:+ bcolors.ENDC) ;;;
       iverilog_compile a t ;;;
       let* _ := write_hash t (netlist t) in ret tt
     else if compile a then
       Os.print (bcolors.OKCYAN +:+ "Compiling as compile flag is set" +:+ bcolors.ENDC) ;;;
       iverilog_compile a t ;;;
       let* _ := write_hash t (netlist t) in ret tt
     else
       let* same := is_same_hash t (netlist t) in
       let* w := get in
       if negb same && negb (bool_decide (sim_vvp t ∈ COMPILE_LOCK w)) then
         Os.print (bcolors.OKCYAN +:+ "Compiling since netlist has changed" +:+ bcolors.ENDC) ;;;
         iverilog_compile a t
       else
         if negb (bool_decide (sim_vvp t ∈ COMPILE_LOCK w)) then
           Os.print (bcolors.OKGREEN +:+ "Skipping compilation as netlist has not changed"
                     +:+ bcolors.ENDC)
         else ret tt) ;;;
    lock (sim_vvp t) ;;;
    if negb (compile_only a) then iverilog_run a t else ret tt.

Definition vcs_compile (a : args) (t : test) : M world unit :=
  let* w := get in
  (if Os.isfile (files w) (simv t) then Os.remove (simv t) else ret tt) ;;;
  let* _ := run_command_write_to_file Vlogan (Some (compilation_log t))
              (if String.eqb (verbosity a) "debug" then false else true) in
  let* _ := run_command_write_to_file Vcs (Some (compilation_log t))
              (if String.eqb (verbosity a) "debug" then false else true) in
  ret tt.

Definition vcs_run (a : args) (t : test) : M world unit :=
  let* _ := run_command_write_to_file Simv
              (if String.eqb (verbosity a) "quiet" then None else Some (test_log2 t))
              (if String.eqb (verbosity a) "quiet" then true else false) in
  ret tt.

Definition runTest_vcs (a : args) (t : test) : M world unit :=
  let* w := get in
  (if negb (Os.isfile (files w) (simv t)) then
     Os.print (bcolors.OKCYAN +:+ "Compiling as simv not found" +:+ bcolors.ENDC) ;;;
     vcs_compile a t ;;;
     let* _ := write_hash t (netlist t) in ret tt
   else if compile a then
     Os.print (bcolors.OKCYAN +:+ "Compiling as compile flag is set" +:+ bcolors.ENDC) ;;;
     vcs_compile a t ;;;
     let* _ := write_hash t (netlist t) in ret tt
   else
     let* same := is_same_hash t (netlist t) in
     let* w := get in
     if negb same && negb (bool_decide (simv t ∈ COMPILE_LOCK w)) then
       Os.print (bcolors.OKCYAN +:+ "Compiling since netlist has has changed" +:+ bcolors.ENDC) ;;;
       vcs_compile a t
     else
       if negb (bool_decide (simv t ∈ COMPILE_LOCK w)) then
         Os.print (bcolors.OKCYAN +:+ "Skipping compilation as netlist has not changed"
                   +:+ bcolors.ENDC)
       else ret tt) ;;;
  lock (simv t) ;;;
  if negb (compile_only a) then vcs_run a t else ret tt.

End Methods.
End RunTest.

(** ** [class OpenFrame_env] *)

Module OpenFrame.

(** A [BinaryValue] as far as it is read: [val.is_resolvable] and
    [int(val)]. *)
Record BinaryValue : Type := {
  is_resolvable : bool;
  integer : Z
}.

(** What the environment does to the simulator and to the log.
    [common.drive_hdl] lives in [interfaces/common.py]; a call of it is
    recorded with its arguments. *)
Inductive action : Type :=
| GetHandle (signal : string)                          (* dut._id(signal, False) *)
| DriveHdl (signal : string) (bits : Z * Z) (data : Z) (* common.drive_hdl(hdl, bits, data) *)
| LogError (msg : string)                              (* cocotb.log.error(msg) *)
| LogDebug (msg : string).                             (* cocotb.log.debug(msg) *)

Record sim : Type := {
  dut : gmap string BinaryValue;   (* the signals of the testbench and their values *)
  trace : list action              (* oldest first *)
}.

(** [self]: [active_gpios_num] is 44 or the macro [OPENFRAME_IO_PADS]. *)
Record OpenFrame_env : Type := {
  active_gpios_num : Z
}.

(** The simulator after some more actions. *)
Definition with_trace (s : sim) (new : list action) : sim :=
  {| dut := dut s; trace := trace s ++ new |}.

Definition emit (a : action) : M sim unit :=
  modify (fun s => with_trace s [a]).

(** The names of the three signals of pin [n], as the f-strings build them. *)
Definition en_signal (n : Z) : string := "gpio" +:+ str_of_int n +:+ "_en".
Definition pin_signal (n : Z) : string := "gpio" +:+ str_of_int n.
Definition monitor_signal (n : Z) : string := "gpio" +:+ str_of_int n +:+ "_monitor".

(** [self.dut._id(signal, False)]: the handle, which stands here as the
    name of the signal, or [AttributeError]. *)
Definition dut_id (signal : string) : M sim string :=
  emit (GetHandle signal) ;;;
  let* s := get in
  match dut s !! signal with
  | Some _ => ret signal
  | None => raise (AttributeError signal)
  end.

Definition drive_hdl (hdl : string) (bits : Z * Z) (data : Z) : M sim unit :=
  emit (DriveHdl hdl bits data).

(** [hdl.value] *)
Definition value_of (hdl : string) : M sim BinaryValue :=
  let* s := get in
  match dut s !! hdl with
  | Some v => ret v
  | None => raise (AttributeError hdl)
  end.

Definition drive_gpio (self : OpenFrame_env) (gpio_num value : Z) : M sim unit :=
  if (gpio_num >=? active_gpios_num self)%Z then
    emit (LogError ("[openframe] GPIO " +:+ str_of_int gpio_num
                    +:+ " is out of range (max "
                    +:+ str_of_int (active_gpios_num self - 1) +:+ ")"))
  else
    let* en := dut_id ("gpio" +:+ str_of_int gpio_num +:+ "_en") in
    drive_hdl en (0, 0)%Z 1 ;;;
    let* pin := dut_id ("gpio" +:+ str_of_int gpio_num) in
    drive_hdl pin (0, 0)%Z value ;;;
    emit (LogDebug ("[openframe] drive GPIO[" +:+ str_of_int gpio_num +:+ "] = "
                    +:+ str_of_int value)).

(** [range(low, high + 1)] *)
Definition pins (high low : Z) : list Z := seqZ low (high + 1 - low).

Definition drive_gpio_range (self : OpenFrame_env) (gpio_range : Z * Z) (value : Z)
    : M sim unit :=
  let '(high, low) := gpio_range in
  for_each (pins high low)
    (fun i =>
       let bit_value := Z.land (Z.shiftr value (i - low)) 1 in
       drive_gpio self i bit_value).

Definition release_gpio (self : OpenFrame_env) (gpio_num : Z) : M sim unit :=
  if (gpio_num >=? active_gpios_num self)%Z then
    emit (LogError ("[openframe] GPIO " +:+ str_of_int gpio_num +:+ " is out of range"))
  else
    let* en := dut_id ("gpio" +:+ str_of_int gpio_num +:+ "_en") in
    drive_hdl en (0, 0)%Z 0 ;;;
    emit (LogDebug ("[openframe] release GPIO[" +:+ str_of_int gpio_num +:+ "]")).

Definition release_gpio_range (self : OpenFrame_env) (gpio_range : Z * Z) : M sim unit :=
  let '(high, low) := gpio_range in
  for_each (pins high low) (fun i => release_gpio self i).

Definition monitor_gpio (self : OpenFrame_env) (gpio_num : Z) : M sim Z :=
  if (gpio_num >=? active_gpios_num self)%Z then
    emit (LogError ("[openframe] GPIO " +:+ str_of_int gpio_num +:+ " is out of range")) ;;;
    ret 0%Z
  else
    let* hdl := dut_id ("gpio" +:+ str_of_int gpio_num +:+ "_monitor") in
    let* val := value_of hdl in
    ret (if is_resolvable val then integer val else 0%Z).

Fixpoint monitor_loop (self : OpenFrame_env) (low : Z) (todo : list Z) (value : Z)
    : M sim Z :=
  match todo with
  | [] => ret value
  | i :: todo' =>
      let* bit_value := monitor_gpio self i in
      monitor_loop self low todo' (Z.lor value (Z.shiftl bit_value (i - low)))
  end.

Definition monitor_gpio_range (self : OpenFrame_env) (gpio_range : Z * Z) : M sim Z :=
  let '(high, low) := gpio_range in
  monitor_loop self low (pins high low) 0%Z.

End OpenFrame.

(** ** What the command runner logs and shows, as functions of the lines

    These functions are not in the source; they say in one place what the
    read loop of [run_command_write_to_file] does to the log file, the
    console and the buffer, and the proofs show that the loop does just
    that. *)

Module Runner.

(** [clean_line] of a line read from the child. *)
Definition clean (out : string) : string := Str.rstrip (Ansi.strip out).

(** What one line adds to the log file. *)
Definition logged (out : string) : string :=
  if Str.is_empty (clean out) then EmptyString else clean out +:+ Str.newline.

Fixpoint log_body (lines : list string) : string :=
  match lines with
  | [] => EmptyString
  | out :: lines' => logged out +:+ log_body lines'
  end.

(** What is written to the log file before the child starts. *)
Definition log_header (sh : host) (cmd : tool) : string :=
  ("command:" +:+ Str.newline)
  +:+ (command_text sh cmd +:+ Str.newline +:+ Str.newline)
  +:+ (Str.repeat "-" 60 +:+ Str.newline).

Definition flushed (b : option string) : list string :=
  match b with
  | Some line => [line]
  | None => []
  end.

(** What one line prints, and the buffer after it. *)
Definition visible (quiet : bool) (b : option string) (out : string)
    : list string * option string :=
  let c := clean out in
  if quiet || Str.is_empty c || RunTest.is_noise c then ([], b)
  else if RunTest.is_progressive_duplicate c b then
    ([], if Nat.ltb (RunTest.len_or_empty b) (String.length c) then Some c else b)
  else (flushed b, Some c).

Fixpoint shown (quiet : bool) (b : option string) (lines : list string)
    : list string * option string :=
  match lines with
  | [] => ([], b)
  | out :: lines' =>
      let '(now, b') := visible quiet b out in
      let '(later, b'') := shown quiet b' lines' in
      (now ++ later, b'')
  end.

(** All that a run prints: the loop and the flush after it. *)
Definition printed (quiet : bool) (lines : list string) : list string :=
  let '(during, b) := shown quiet None lines in during ++ flushed b.

(** The content of a file, the empty string when there is none. *)
Definition content_of (fs : gmap string node) (f : string) : string :=
  match fs !! f with
  | Some (Regular c) => c
  | _ => EmptyString
  end.

(** The files after [text] was appended to the log file, if there is one. *)
Definition log_to (file : option string) (text : string) (fs : gmap string node)
    : gmap string node :=
  match file with
  | Some f => <[f := Regular (content_of fs f +:+ text)]> fs
  | None => fs
  end.

(** The log file, if one was asked for, is a file that can be opened. *)
Definition writable (file : option string) (fs : gmap string node) : Prop :=
  match file with
  | Some f => exists c, fs !! f = Some (Regular c)
  | None => True
  end.

(** [x] is a prefix of [y] and shorter than it. *)
Definition strict_prefix (x y : string) : Prop :=
  exists z, z <> EmptyString /\ y = x +:+ z.

End Runner.

(** ** What a step does to the compile lock and to the processes started *)

(** Every process in [new] is one of a tool for which [P] holds. *)
Definition spawned_only (P : tool -> Prop) (new : list event) : Prop :=
  Forall (fun e => match e with Spawned t => P t end) new.

(** From a world in which [x] is locked, [m] leaves [x] locked and starts
    processes of the tools in [P] only, whether it returns or raises. *)
Definition keeps_locked (x : string) (P : tool -> Prop) {A : Type} (m : M world A)
    : Prop :=
  forall w, x ∈ COMPILE_LOCK w ->
    x ∈ COMPILE_LOCK (snd (m w))
    /\ exists new, events (snd (m w)) = events w ++ new /\ spawned_only P new.

(** ** Concrete worlds for the examples *)

Module Examples.

Definition hex_digit (n : nat) : ascii :=
  ascii_of_nat (if Nat.ltb n 10 then 48 + n else 87 + n).

Fixpoint hex_dump (s : string) : string :=
  match s with
  | EmptyString => EmptyString
  | String c s' =>
      let n := nat_of_ascii c in
      String (hex_digit (Nat.div n 16)) (String (hex_digit (Nat.modulo n 16)) (hex_dump s'))
  end.

(** A stand-in for an algorithm of [hashlib], to run the examples: the
    object keeps what it was fed and the digest is its hex dump. *)
Definition dump_alg : HashAlg := {|
  hash_obj := string;
  hash_new := EmptyString;
  hash_update := fun h chunk => h +:+ chunk;
  hexdigest := hex_dump
|}.

Definition line (s : string) : string := s +:+ Str.newline.

(** A host whose every child prints [lines], exits with 0 and touches no
    file. *)
Definition printing (lines : list string) : host := {|
  command_text := fun _ => "cmd";
  popen := fun _ fs => ({| stdout_lines := lines; returncode := 0 |}, fs)
|}.

(** A host whose compilers write the artifact and print nothing. *)
Definition compiling (artifact : string) : host := {|
  command_text := fun _ => "cmd";
  popen := fun t fs =>
    ({| stdout_lines := []; returncode := 0 |},
     match t with
     | Iverilog | Vcs => <[artifact := Regular "bin"]> fs
     | _ => fs
     end)
|}.

Definition world_of (fs : gmap string node) : world :=
  {| files := fs; console := []; COMPILE_LOCK := ∅; events := [];
     read_refusal := ∅; write_refusal := ∅ |}.

Definition blank : world := world_of ∅.

Definition a_test : test := {|
  name := "gpio_all_o";
  sim := "RTL";
  compilation_dir := "sim/compilation";
  compilation_log := "sim/compilation/compilation.log";
  test_log2 := "sim/gpio_all_o/test.log";
  hash_log := "sim/compilation/hash.log";
  netlist := ["rtl/b.v"; "rtl/a.v"]
|}.

Definition normal_args : args :=
  {| compile := false; compile_only := false; verbosity := "normal" |}.

(** Both netlist files are there. *)
Definition two_files : world :=
  world_of (<["rtl/a.v" := Regular "module a; endmodule"]>
            (<["rtl/b.v" := Regular "module b; endmodule"]> ∅)).

(** The artifact is there and locked, and the hash log holds the digest of
    an older netlist. *)
Definition locked_stale (artifact : string) : world := {|
  files := <[artifact := Regular "bin"]>
           (<["sim/compilation/hash.log" := Regular "00"]> (files two_files));
  console := [];
  COMPILE_LOCK := {[artifact]};
  events := [];
  read_refusal := ∅;
  write_refusal := ∅
|}.

(** The netlist is there and the hash log is not; nor is the directory of
    the hash log, so no file can be made there. *)
Definition no_directory : world := {|
  files := files two_files;
  console := [];
  COMPILE_LOCK := ∅;
  events := [];
  read_refusal := ∅;
  write_refusal := {[ "sim/compilation/hash.log" := NoEntry ]}
|}.

(** The hash log is there and cannot be opened. *)
Definition denied_log : world :=
  world_of (<["sim/compilation/hash.log" := Denied]> (files two_files)).

(** [rtl] is a directory, with the two netlist files in it. *)
Definition with_directory : world := {|
  files := files two_files;
  console := [];
  COMPILE_LOCK := ∅;
  events := [];
  read_refusal := {[ "rtl" := IsDirectory ]};
  write_refusal := {[ "rtl" := IsDirectory ]}
|}.

(** The console of a run of the command runner on [lines]. *)
Definition printed (lines : list string) : list string :=
  console (snd (RunTest.run_command_write_to_file (printing lines) Vvp None false blank)).

(** Forty-four pins with their three signals each, all reading 0. *)
Definition gpio_signals (n : nat) : gmap string OpenFrame.BinaryValue :=
  list_to_map
    (flat_map
       (fun i =>
          let v := {| OpenFrame.is_resolvable := true; OpenFrame.integer := 0 |} in
          [("gpio" +:+ str_of_int (Z.of_nat i) +:+ "_en", v);
           ("gpio" +:+ str_of_int (Z.of_nat i), v);
           ("gpio" +:+ str_of_int (Z.of_nat i) +:+ "_monitor", v)])
       (List.seq 0 n)).

Definition openframe : OpenFrame.OpenFrame_env := {| OpenFrame.active_gpios_num := 44 |}.

Definition testbench : OpenFrame.sim :=
  {| OpenFrame.dut := gpio_signals 44; OpenFrame.trace := [] |}.

End Examples.

(** ** Definitions for the further properties *)

Module Further.

(** The lines that may reach the console: cleaned, not empty, not noise. *)
Definition kept (lines : list string) : list string :=
  List.filter (fun c => negb (Str.is_empty c) && negb (RunTest.is_noise c))
    (map Runner.clean lines).

(** [longer] is [shorter] with more than two characters after it. *)
Definition extends (longer shorter : string) : bool :=
  Str.startswith longer shorter
  && Nat.ltb (String.length shorter + 2) (String.length longer).

(** What reaches the console of the kept lines [ks], with [b] in the
    buffer.  A line that extends the buffered line takes its place, a line
    that the buffered line extends is dropped, and nothing is printed for
    either; any other line has the buffered line printed and takes its
    place; what is left in the buffer is printed at the end. *)
Fixpoint through_buffer (b : option string) (ks : list string) : list string :=
  match ks with
  | [] => Runner.flushed b
  | c :: ks' =>
      match b with
      | None => through_buffer (Some c) ks'
      | Some l =>
          if extends c l then through_buffer (Some c) ks'
          else if extends l c then through_buffer (Some l) ks'
          else l :: through_buffer (Some c) ks'
      end
  end.

(** The same bytes cut into two files at two places. *)
Definition cut_early : world :=
  Examples.world_of (<["rtl/a.v" := Regular "module"]>
                     (<["rtl/b.v" := Regular " top; endmodule"]> ∅)).

Definition cut_late : world :=
  Examples.world_of (<["rtl/a.v" := Regular "module top;"]>
                     (<["rtl/b.v" := Regular " endmodule"]> ∅)).

(** What [monitor_gpio] returns for pin [i] when it returns: 0 above the pin
    count, 0 for a value with X or Z bits, [int(val)] otherwise. *)
Definition pin_reading (self : OpenFrame.OpenFrame_env) (s : OpenFrame.sim) (i : Z) : Z :=
  if (i >=? OpenFrame.active_gpios_num self)%Z then 0%Z
  else match OpenFrame.dut s !! OpenFrame.monitor_signal i with
       | Some val => if OpenFrame.is_resolvable val then OpenFrame.integer val else 0%Z
       | None => 0%Z
       end.

(** What [monitor_gpio] adds to the trace for pin [i] when it returns. *)
Definition monitor_actions (self : OpenFrame.OpenFrame_env) (i : Z) : list OpenFrame.action :=
  if (i >=? OpenFrame.active_gpios_num self)%Z then
    [OpenFrame.LogError ("[openframe] GPIO " +:+ str_of_int i +:+ " is out of range")]
  else [OpenFrame.GetHandle (OpenFrame.monitor_signal i)].

(** An action that drives a signal. *)
Definition is_drive (a : OpenFrame.action) : bool :=
  match a with
  | OpenFrame.DriveHdl _ _ _ => true
  | _ => false
  end.

(** A testbench whose pins 0 to 3 read 1, X, 1, 0. *)
Definition reading_bench : OpenFrame.sim :=
  {| OpenFrame.dut :=
       <["gpio0_monitor" := {| OpenFrame.is_resolvable := true; OpenFrame.integer := 1 |}]>
       (<["gpio1_monitor" := {| OpenFrame.is_resolvable := false; OpenFrame.integer := 0 |}]>
        (<["gpio2_monitor" := {| OpenFrame.is_resolvable := true; OpenFrame.integer := 1 |}]>
         (Examples.gpio_signals 44)));
     OpenFrame.trace := [] |}.

(** [m] leaves the compile lock and the list of the processes started as
    they are, whether it returns or raises. *)
Definition quiet {A : Type} (m : M world A) : Prop :=
  forall w, COMPILE_LOCK (snd (m w)) = COMPILE_LOCK w /\ events (snd (m w)) = events w.

(** When [m] returns it has started the processes [ev], in this order, and
    no other, and has left the compile lock as it is. *)
Definition starts {A : Type} (ev : list event) (m : M world A) : Prop :=
  forall w a w', m w = (Ok a, w') ->
    COMPILE_LOCK w' = COMPILE_LOCK w /\ events w' = events w ++ ev.

(** [is_same_hash] answers "same" for the netlist of the test. *)
Definition answers_same {alg : HashAlg} (t : test) (w : world) : bool :=
  match fst (RunTest.is_same_hash t (netlist t) w) with
  | Ok b => b
  | Raise _ => false
  end.

(** The condition under which a track compiles: the artifact is not there,
    or the compile flag is set, or [is_same_hash] does not answer "same" and
    the artifact is not locked. *)
Definition must_compile {alg : HashAlg} (artifact : string) (a : args) (t : test)
    (w : world) : bool :=
  negb (Os.isfile (files w) artifact)
  || compile a
  || (negb (answers_same t w) && negb (bool_decide (artifact ∈ COMPILE_LOCK w))).

(** A host whose compilers fail: they print an error, exit with 1 and
    write nothing. *)
Definition failing : host := {|
  command_text := fun _ => "cmd";
  popen := fun t fs =>
    ({| stdout_lines := [Examples.line "error: syntax error"]; returncode := 1 |}, fs)
|}.

(** [s.replace(old, new)] for an [old] that is not empty: the matches are
    taken from left to right and do not overlap; [skip] characters of the
    last match are still to pass. *)
Fixpoint replace_from (old new : string) (skip : nat) (s : string) : string :=
  match s with
  | EmptyString => EmptyString
  | String c s' =>
      match skip with
      | S k => replace_from old new k s'
      | O =>
          if Str.startswith (String c s') old
          then new +:+ replace_from old new (String.length old - 1) s'
          else String c (replace_from old new 0 s')
      end
  end.

(** [s.replace("", new)]: [new] before every character and at the end. *)
Fixpoint interleave (new s : string) : string :=
  match s with
  | EmptyString => new
  | String c s' => new +:+ String c (interleave new s')
  end.

(** [s.replace(old, new)] *)
Definition replace (old new s : string) : string :=
  if Str.is_empty old then interleave new s else replace_from old new 0 s.

(** [change_str(str, new_str, file_path)] *)
Definition change_str (str new_str file_path : string) : M world unit :=
  let* filedata := Os.read_text file_path in
  let filedata := replace str new_str filedata in
  Os.write file_path filedata.

(** The strings that a regular expression matches as a whole. *)
Inductive matches : Re.regex -> string -> Prop :=
| matches_eps : matches Re.Eps EmptyString
| matches_chr (p : ascii -> bool) (c : ascii) :
    p c = true -> matches (Re.Chr p) (String c EmptyString)
| matches_cat (r s : Re.regex) (x y : string) :
    matches r x -> matches s y -> matches (Re.Cat r s) (x +:+ y)
| matches_alt_l (r s : Re.regex) (x : string) :
    matches r x -> matches (Re.Alt r s) x
| matches_alt_r (r s : Re.regex) (x : string) :
    matches s x -> matches (Re.Alt r s) x
| matches_star_nil (r : Re.regex) : matches (Re.Star r) EmptyString
| matches_star_cons (r : Re.regex) (x y : string) :
    matches r x -> matches (Re.Star r) y -> matches (Re.Star r) (x +:+ y).

(** The noise patterns that are a plain text to be found anywhere in the
    line. *)
Definition noise_keywords : list string :=
  ["docker.io/"; "What's next:"; "docker scout"; "View a summary of image";
   "DeprecationWarning"; "RuntimeWarning"; "cocotb.scheduler.add";
   "gpi_embed.cpp"; "GpiCommon.cpp"; "in gpi_print_registered";
   "in set_program_name_in_venv"; "VPI registered"; "pytest not found"].

(** [old in s] *)
Fixpoint contains (s old : string) : bool :=
  Str.startswith s old
  || match s with
     | EmptyString => false
     | String _ s' => contains s' old
     end.

End Further.

(** * Proofs *)

(** ** The netlist hash *)

Section HashProofs.

Context {alg : HashAlg}.
Import RunTest.

(** The sorted list of a netlist is the same for each of its orders. *)
Lemma sorted_Permutation (l l' : list string) : l ≡ₚ l' -> sorted l = sorted l'.
Proof.
  intros P. unfold sorted.
  apply (Sorted_unique String.le); try apply Sorted_merge_sort; try apply _.
  now rewrite !merge_sort_Permutation.
Qed.

Lemma sorted_elem_of (l : list string) (p : string) : p ∈ sorted l <-> p ∈ l.
Proof. unfold sorted. now rewrite merge_sort_Permutation. Qed.

(** The read loop ends because the file is read to its end, not because
    its fuel runs out: fuel beyond the length of the file changes nothing. *)
Lemma CHUNK_succ : exists k, CHUNK = S k.
Proof. exists (Nat.pred CHUNK). vm_compute. reflexivity. Qed.

Lemma length_drop_le (n : nat) (s : string) :
  String.length (Str.drop n s) <= String.length s.
Proof.
  revert s. induction n as [|n IH]; intros [|c s]; simpl; try lia.
  specialize (IH s). lia.
Qed.

Lemma read_loop_fuel (fuel extra : nat) :
  forall (rest : string) (h : hash_obj),
  String.length rest < fuel ->
  read_loop (fuel + extra) rest h = read_loop fuel rest h.
Proof.
  destruct CHUNK_succ as [k Hk].
  induction fuel as [|fuel IH]; intros rest h L; [lia|].
  cbn [read_loop Nat.add]. rewrite Hk.
  destruct rest as [|c rest]; [reflexivity|].
  cbn [Str.take Str.is_empty Str.drop]. apply IH.
  pose proof (length_drop_le k rest). simpl in L. lia.
Qed.

(** Reading changes nothing. *)
Lemma read_world (path : string) (w : world) : snd (Os.read path w) = w.
Proof. unfold Os.read. destruct (files w !! path) as [[c|]|]; reflexivity. Qed.

(** A path is read when it holds a regular file that can be opened, and
    when not, [open] raises. *)
Lemma read_cases (path : string) (w : world) :
  (exists c, files w !! path = Some (Regular c) /\ Os.read path w = (Ok c, w))
  \/ ((files w !! path = None \/ files w !! path = Some Denied)
      /\ exists e, Os.read path w = (Raise e, w)).
Proof.
  unfold Os.read. destruct (files w !! path) as [[c|]|].
  - left. now exists c.
  - right. split; [now right | eexists; reflexivity].
  - right. split; [now left | eexists; reflexivity].
Qed.

Lemma read_text_spec (path : string) (w : world) :
  Os.read_text path w
  = (match fst (Os.read path w) with
     | Ok c => Ok (Str.universal_newlines c)
     | Raise e => Raise e
     end, w).
Proof.
  unfold Os.read_text, bind. pose proof (read_world path w) as R.
  destruct (Os.read path w) as [[c|e] w1]; simpl in R; subst w1; reflexivity.
Qed.

(** A write that raises leaves the world as it is; one that returns has put
    the text in place of the file. *)
Lemma write_cases (path text : string) (w : world) :
  Os.write path text w = (Ok tt, set_files (insert path (Regular text)) w)
  \/ exists e, Os.write path text w = (Raise e, w).
Proof.
  unfold Os.write. destruct (files w !! path) as [[c|]|].
  - now left.
  - right. eexists. reflexivity.
  - destruct (write_refusal w !! path); [right; eexists; reflexivity | now left].
Qed.

(** Hashing reads files and changes nothing. *)
Lemma hash_files_world (paths : list string) (h : hash_obj) (w : world) :
  snd (hash_files paths h w) = w.
Proof.
  revert h. induction paths as [|p ps IH]; intros h; simpl; [reflexivity|].
  unfold bind. pose proof (read_world p w) as R.
  destruct (Os.read p w) as [[c|e] w1]; simpl in R; subst w1; simpl; auto.
Qed.

(** When every file can be read the loop ends with a hash object. *)
Lemma hash_files_readable (paths : list string) (h : hash_obj) (w : world) :
  (forall p, p ∈ paths -> exists c, files w !! p = Some (Regular c)) ->
  exists h', hash_files paths h w = (Ok h', w).
Proof.
  revert h. induction paths as [|p ps IH]; intros h R; simpl.
  - now exists h.
  - destruct (R p) as [c Hc]; [left|].
    unfold bind, Os.read. rewrite Hc.
    apply IH. intros q Hq. apply R. now right.
Qed.

(** In a sorted list the loop stops at the least path that cannot be read,
    with the exception that [open] raises for it. *)
Lemma hash_files_least (paths : list string) (w : world) :
  StronglySorted String.le paths ->
  forall h : hash_obj,
  (exists p, p ∈ paths /\ (files w !! p = None \/ files w !! p = Some Denied)) ->
  exists q e,
    q ∈ paths
    /\ (files w !! q = None \/ files w !! q = Some Denied)
    /\ (forall r, r ∈ paths -> files w !! r = None \/ files w !! r = Some Denied ->
          String.le q r)
    /\ Os.read q w = (Raise e, w)
    /\ hash_files paths h w = (Raise e, w).
Proof.
  induction 1 as [|x xs Hs IH Hx]; intros h (p & Hin & Hp); [inversion Hin|].
  cbn [hash_files]. unfold bind.
  destruct (read_cases x w) as [(c & Ex & Rx)|(Ux & e & Rx)]; rewrite Rx.
  - assert (Hin' : p ∈ xs).
    { apply elem_of_cons in Hin as [->|]; [|assumption].
      destruct Hp as [Hp|Hp]; rewrite Ex in Hp; discriminate. }
    destruct (IH (update_from_file c h)) as (q & e & Hq & Uq & Hleast & Rq & Hf);
      [now exists p|].
    exists q, e. split; [now right|]. split; [exact Uq|].
    split; [|split; [exact Rq | exact Hf]].
    intros r Hr Hu. apply elem_of_cons in Hr as [->|Hr]; [|now apply Hleast].
    destruct Hu as [Hu|Hu]; rewrite Ex in Hu; discriminate.
  - exists x, e. split; [left|]. split; [exact Ux|].
    split; [|split; [exact Rx | reflexivity]].
    intros r Hr _. apply elem_of_cons in Hr as [->|Hr]; [reflexivity|].
    rewrite Forall_forall in Hx. now apply Hx.
Qed.

(** [calculate_netlist_hash] by what the loop over the files does: it
    catches [FileNotFoundError] and [PermissionError] and no other
    exception, and it changes nothing. *)
Lemma calculate_of_hash_files (netlist : list string) (w : world) :
  calculate_netlist_hash netlist w
  = (match fst (hash_files (sorted netlist) hash_new w) with
     | Ok h => Ok (hexdigest h)
     | Raise (FileNotFoundError f) => Ok ("File not found: " +:+ f)
     | Raise (PermissionError f) => Ok ("Permission denied: " +:+ f)
     | Raise e => Raise e
     end, w).
Proof.
  unfold calculate_netlist_hash, try_except, bind.
  pose proof (hash_files_world (sorted netlist) hash_new w) as Hw.
  destruct (hash_files (sorted netlist) hash_new w) as [[h|e] w1];
    simpl in Hw; subst w1; [reflexivity|].
  destruct e; reflexivity.
Qed.

Lemma calculate_world (netlist : list string) (w : world) :
  snd (calculate_netlist_hash netlist w) = w.
Proof. now rewrite calculate_of_hash_files. Qed.

Lemma calculate_cases (netlist : list string) (w : world) :
  (exists digest, calculate_netlist_hash netlist w = (Ok digest, w))
  \/ (exists e, calculate_netlist_hash netlist w = (Raise e, w)).
Proof.
  pose proof (calculate_world netlist w) as Hw.
  destruct (calculate_netlist_hash netlist w) as [[d|e] w1]; simpl in Hw; subst w1;
    [left | right]; eexists; reflexivity.
Qed.

(** [write_hash] by what its two steps do. *)
Lemma write_hash_spec (t : test) (netlist : list string) (w : world) :
  write_hash t netlist w
  = match fst (calculate_netlist_hash netlist w) with
    | Raise e => (Raise e, w)
    | Ok digest =>
        match fst (Os.write (hash_log t) digest w) with
        | Raise e => (Raise e, w)
        | Ok _ => (Ok digest, set_files (insert (hash_log t) (Regular digest)) w)
        end
    end.
Proof.
  unfold write_hash, bind.
  destruct (calculate_cases netlist w) as [[d C]|[e C]]; rewrite C; cbn [fst]; [|reflexivity].
  destruct (write_cases (hash_log t) d w) as [W|[e W]]; rewrite W; reflexivity.
Qed.

(** [is_same_hash] by what its steps do: the read of the hash log, of
    which it catches [FileNotFoundError] and no other exception, then
    [write_hash], then the comparison. *)
Lemma is_same_hash_spec (t : test) (netlist : list string) (w : world) :
  is_same_hash t netlist w
  = let compare old :=
      match write_hash t netlist w with
      | (Ok digest, w') => (Ok (py_eq (PyStr digest) old), w')
      | (Raise e, w') => (Raise e, w')
      end in
    match fst (Os.read_text (hash_log t) w) with
    | Ok text => compare (PyStr (Str.strip text))
    | Raise (FileNotFoundError _) => compare (PyInt 0)
    | Raise e => (Raise e, w)
    end.
Proof.
  cbv zeta. unfold is_same_hash, try_except, bind at 1 2.
  rewrite (read_text_spec (hash_log t) w). cbn [fst].
  destruct (fst (Os.read (hash_log t) w)) as [c|e]; [|destruct e];
    unfold ret, bind; try reflexivity;
    destruct (write_hash t netlist w) as [[d|e'] w1]; reflexivity.
Qed.

(** C4.  The digest does not depend on the order of the file list: for a
    list of readable files and any permutation of it,
    [calculate_netlist_hash] returns the digest of one and the same hash
    object. *)
Theorem calculate_netlist_hash_permutation (w : world) (netlist netlist' : list string) :
  (forall p, p ∈ netlist -> exists c, files w !! p = Some (Regular c)) ->
  netlist ≡ₚ netlist' ->
  exists h : hash_obj,
    calculate_netlist_hash netlist w = (Ok (hexdigest h), w)
    /\ calculate_netlist_hash netlist' w = (Ok (hexdigest h), w).
Proof.
  intros R P.
  assert (R' : forall p, p ∈ sorted netlist -> exists c, files w !! p = Some (Regular c)).
  { intros p Hp. apply R. now apply sorted_elem_of. }
  destruct (hash_files_readable (sorted netlist) hash_new w R') as [h Hh].
  exists h. unfold calculate_netlist_hash, try_except, bind.
  rewrite <- (sorted_Permutation netlist netlist' P), Hh. split; reflexivity.
Qed.

(** C3, as the code has it.  When a file of the netlist is missing or
    cannot be opened, the hash loop stops at such a path [q] with the
    exception [e] that [open] raises for it.  [calculate_netlist_hash]
    catches two kinds: for [FileNotFoundError] it returns
    "File not found: <q>" and for [PermissionError]
    "Permission denied: <q>".  [is_same_hash] then stores that string and
    compares it like a digest: it answers "changed" when there is no hash
    log and one can be made, and when there is one that can be read and
    written, exactly when its stripped text differs from the string.  Any
    other exception ([IsADirectoryError] for a directory in the list,
    [NotADirectoryError] for a path below a regular file) is not caught:
    [calculate_netlist_hash] raises it, and [is_same_hash] raises as well
    and stores nothing. *)
Theorem calculate_netlist_hash_unreadable (t : test) (w : world)
    (netlist : list string) (p : string) :
  p ∈ netlist ->
  (exists e, fst (Os.read p w) = Raise e) ->
  exists q e,
    q ∈ netlist
    /\ Os.read q w = (Raise e, w)
    /\ (forall msg,
          e = FileNotFoundError q /\ msg = "File not found: " +:+ q
          \/ e = PermissionError q /\ msg = "Permission denied: " +:+ q ->
          calculate_netlist_hash netlist w = (Ok msg, w)
          /\ (fst (Os.read_text (hash_log t) w) = Raise (FileNotFoundError (hash_log t)) ->
              fst (Os.write (hash_log t) msg w) = Ok tt ->
              fst (is_same_hash t netlist w) = Ok false)
          /\ (forall text,
                fst (Os.read_text (hash_log t) w) = Ok text ->
                fst (Os.write (hash_log t) msg w) = Ok tt ->
                fst (is_same_hash t netlist w) = Ok (String.eqb msg (Str.strip text))))
    /\ ((forall f, e <> FileNotFoundError f) -> (forall f, e <> PermissionError f) ->
        calculate_netlist_hash netlist w = (Raise e, w)
        /\ exists e', is_same_hash t netlist w = (Raise e', w)).
Proof.
  intros Hin [ep Hp].
  destruct (hash_files_least (sorted netlist) w) with (h := hash_new)
    as (q & e & Hq & _ & _ & Rq & Hf).
  { unfold sorted. apply StronglySorted_merge_sort; apply _. }
  { exists p. split; [now apply sorted_elem_of|].
    destruct (read_cases p w) as [(c & _ & R)|[U _]]; [|exact U].
    rewrite R in Hp. discriminate. }
  exists q, e. split; [now apply (proj1 (sorted_elem_of _ _))|]. split; [exact Rq|].
  pose proof (calculate_of_hash_files netlist w) as C. rewrite Hf in C. cbn [fst] in C.
  split.
  - intros msg Hmsg.
    assert (Cm : calculate_netlist_hash netlist w = (Ok msg, w))
      by (destruct Hmsg as [[-> ->]|[-> ->]]; exact C).
    split; [exact Cm|].
    pose proof (is_same_hash_spec t netlist w) as S. cbv zeta in S.
    rewrite (write_hash_spec t netlist w), Cm in S. cbn [fst] in S.
    split.
    + intros Hr Hw. rewrite S, Hr, Hw. reflexivity.
    + intros text Hr Hw. rewrite S, Hr, Hw. reflexivity.
  - intros N1 N2.
    assert (Ce : calculate_netlist_hash netlist w = (Raise e, w)).
    { rewrite C. destruct e; try reflexivity; [now destruct (N1 filename) | now destruct (N2 filename)]. }
    split; [exact Ce|].
    pose proof (is_same_hash_spec t netlist w) as S. cbv zeta in S.
    rewrite (write_hash_spec t netlist w), Ce in S. cbn [fst] in S. rewrite S.
    destruct (fst (Os.read_text (hash_log t) w)) as [text|e0]; [eexists; reflexivity|].
    destruct e0; eexists; reflexivity.
Qed.

(** C6, as the code has it.  When there is no hash log, that is when
    [open] raises [FileNotFoundError] for it, [is_same_hash] never answers
    "same".  It answers "changed" when the hash of the netlist can be
    computed and the hash log can be made; when the hash computation
    raises, or when the hash log cannot be made (its directory is missing,
    say), [is_same_hash] raises that exception and returns nothing. *)
Theorem is_same_hash_without_log (t : test) (w : world) (netlist : list string) :
  fst (Os.read_text (hash_log t) w) = Raise (FileNotFoundError (hash_log t)) ->
  (forall b w', is_same_hash t netlist w = (Ok b, w') -> b = false)
  /\ (forall digest,
        calculate_netlist_hash netlist w = (Ok digest, w) ->
        fst (Os.write (hash_log t) digest w) = Ok tt ->
        exists w', is_same_hash t netlist w = (Ok false, w'))
  /\ (forall e,
        calculate_netlist_hash netlist w = (Raise e, w) ->
        is_same_hash t netlist w = (Raise e, w))
  /\ (forall digest e,
        calculate_netlist_hash netlist w = (Ok digest, w) ->
        fst (Os.write (hash_log t) digest w) = Raise e ->
        is_same_hash t netlist w = (Raise e, w)).
Proof.
  intros Hr.
  pose proof (is_same_hash_spec t netlist w) as S. cbv zeta in S.
  rewrite Hr, (write_hash_spec t netlist w) in S.
  split; [|split; [|split]].
  - intros b w' E. rewrite E in S.
    destruct (fst (calculate_netlist_hash netlist w)) as [d|e]; [|discriminate].
    destruct (fst (Os.write (hash_log t) d w)) as [[]|e]; [|discriminate].
    now injection S as -> _.
  - intros digest C Hw. rewrite C in S. cbn [fst] in S. rewrite Hw in S.
    eexists. exact S.
  - intros e C. rewrite C in S. exact S.
  - intros digest e C Hw. rewrite C in S. cbn [fst] in S. rewrite Hw in S. exact S.
Qed.

(** C7, as the code has it.  Every call of [is_same_hash] that returns has
    left in the hash log exactly the digest it computed, in place of what
    was there, whether it answers "same" or "changed"; the console, the
    compile lock and the processes are as before.  A call that raises has
    stored nothing: the world is as it was.  And the call returns when the
    hash log can be read or is missing, the hash of the netlist can be
    computed and the hash log can be opened for writing. *)
Theorem is_same_hash_persists (t : test) (w : world) (netlist : list string) :
  (forall b w', is_same_hash t netlist w = (Ok b, w') ->
     exists digest,
       calculate_netlist_hash netlist w = (Ok digest, w)
       /\ files w' !! hash_log t = Some (Regular digest)
       /\ b = match fst (Os.read_text (hash_log t) w) with
              | Ok text => String.eqb digest (Str.strip text)
              | Raise _ => false
              end
       /\ console w' = console w
       /\ COMPILE_LOCK w' = COMPILE_LOCK w
       /\ events w' = events w)
  /\ (forall e w', is_same_hash t netlist w = (Raise e, w') -> w' = w)
  /\ (forall digest,
        (exists text, fst (Os.read_text (hash_log t) w) = Ok text)
        \/ fst (Os.read_text (hash_log t) w) = Raise (FileNotFoundError (hash_log t)) ->
        calculate_netlist_hash netlist w = (Ok digest, w) ->
        fst (Os.write (hash_log t) digest w) = Ok tt ->
        exists b w', is_same_hash t netlist w = (Ok b, w')).
Proof.
  pose proof (is_same_hash_spec t netlist w) as S. cbv zeta in S.
  rewrite (write_hash_spec t netlist w) in S.
  split; [|split].
  - intros b w' E. rewrite E in S.
    destruct (calculate_cases netlist w) as [[d C]|[e C]]; rewrite C in S; cbn [fst] in S.
    + exists d. split; [exact C|].
      destruct (fst (Os.write (hash_log t) d w)) as [[]|e].
      * destruct (fst (Os.read_text (hash_log t) w)) as [text|e];
          [|destruct e; try discriminate];
          injection S as -> ->; simpl; rewrite lookup_insert_eq; repeat split.
      * destruct (fst (Os.read_text (hash_log t) w)) as [text|e0];
          [|destruct e0]; discriminate.
    + destruct (fst (Os.read_text (hash_log t) w)) as [text|e0];
        [|destruct e0]; discriminate.
  - intros e w' E. rewrite E in S.
    destruct (fst (Os.read_text (hash_log t) w)) as [text|e0].
    + destruct (fst (calculate_netlist_hash netlist w)) as [d|e1];
        [destruct (fst (Os.write (hash_log t) d w)) as [[]|e2]|];
        congruence.
    + destruct e0; try congruence;
        (destruct (fst (calculate_netlist_hash netlist w)) as [d|e1];
         [destruct (fst (Os.write (hash_log t) d w)) as [[]|e2]|]; congruence).
  - intros digest Hr C Hw. rewrite C in S. cbn [fst] in S. rewrite Hw in S.
    destruct Hr as [[text Hr]|Hr]; rewrite Hr in S; eexists; eexists; exact S.
Qed.

End HashProofs.

Lemma calculate_netlist_hash_permutation_witness :
  exists h : string,
    RunTest.calculate_netlist_hash (alg := Examples.dump_alg)
      ["rtl/b.v"; "rtl/a.v"] Examples.two_files
      = (Ok (Examples.hex_dump h), Examples.two_files)
    /\ RunTest.calculate_netlist_hash (alg := Examples.dump_alg)
      ["rtl/a.v"; "rtl/b.v"] Examples.two_files
      = (Ok (Examples.hex_dump h), Examples.two_files).
Proof.
  apply (calculate_netlist_hash_permutation (alg := Examples.dump_alg)).
  - intros p Hp.
    apply elem_of_cons in Hp as [->|Hp]; [eexists; vm_compute; reflexivity|].
    apply elem_of_cons in Hp as [->|Hp]; [eexists; vm_compute; reflexivity|].
    inversion Hp.
  - apply perm_swap.
Defined.

(** The spec's C3 fails on a second check: the first call stores the error
    string in the hash log, and the next call, with the file still missing,
    finds it there and answers "same". *)
Lemma is_same_hash_error_twice_counterexample :
  let first := RunTest.is_same_hash (alg := Examples.dump_alg)
                 Examples.a_test ["rtl/missing.v"] Examples.blank in
  let second := RunTest.is_same_hash (alg := Examples.dump_alg)
                  Examples.a_test ["rtl/missing.v"] (snd first) in
  files Examples.blank !! "rtl/missing.v" = None
  /\ fst first = Ok false
  /\ files (snd first) !! "rtl/missing.v" = None
  /\ files (snd first) !! hash_log Examples.a_test
     = Some (Regular "File not found: rtl/missing.v")
  /\ fst second = Ok true.
Proof. vm_compute. repeat split; reflexivity. Qed.

(** A missing file gives the string and the answer "changed"; with the
    directory [rtl] itself in the list the call raises. *)
Lemma calculate_netlist_hash_unreadable_witness :
  ("rtl/missing.v" ∈ ["rtl/a.v"; "rtl/missing.v"]
   /\ fst (Os.read "rtl/missing.v" Examples.two_files)
      = Raise (FileNotFoundError "rtl/missing.v")
   /\ RunTest.calculate_netlist_hash (alg := Examples.dump_alg)
        ["rtl/a.v"; "rtl/missing.v"] Examples.two_files
      = (Ok "File not found: rtl/missing.v", Examples.two_files)
   /\ fst (RunTest.is_same_hash (alg := Examples.dump_alg) Examples.a_test
             ["rtl/a.v"; "rtl/missing.v"] Examples.two_files) = Ok false)
  /\ ("rtl" ∈ ["rtl/a.v"; "rtl"]
      /\ fst (Os.read "rtl" Examples.with_directory) = Raise (IsADirectoryError "rtl")
      /\ RunTest.calculate_netlist_hash (alg := Examples.dump_alg)
           ["rtl/a.v"; "rtl"] Examples.with_directory
         = (Raise (IsADirectoryError "rtl"), Examples.with_directory)).
Proof.
  split.
  - assert (Hin : "rtl/missing.v" ∈ ["rtl/a.v"; "rtl/missing.v"]) by (right; left).
    assert (Hno : fst (Os.read "rtl/missing.v" Examples.two_files)
                  = Raise (FileNotFoundError "rtl/missing.v")) by reflexivity.
    split; [exact Hin|]. split; [exact Hno|].
    destruct (calculate_netlist_hash_unreadable (alg := Examples.dump_alg)
                Examples.a_test Examples.two_files ["rtl/a.v"; "rtl/missing.v"]
                "rtl/missing.v" Hin (ex_intro _ _ Hno))
      as (q & e & Hq & Rq & Hcaught & _).
    assert (Eq : q = "rtl/missing.v").
    { apply elem_of_cons in Hq as [->|Hq]; [vm_compute in Rq; discriminate|].
      apply elem_of_cons in Hq as [->|Hq]; [reflexivity | inversion Hq]. }
    subst q. vm_compute in Rq. injection Rq as <-.
    destruct (Hcaught "File not found: rtl/missing.v") as (C & Hnone & _);
      [left; split; reflexivity|].
    split; [exact C|]. apply Hnone; vm_compute; reflexivity.
  - assert (Hin : "rtl" ∈ ["rtl/a.v"; "rtl"]) by (right; left).
    assert (Hno : fst (Os.read "rtl" Examples.with_directory)
                  = Raise (IsADirectoryError "rtl")) by reflexivity.
    split; [exact Hin|]. split; [exact Hno|].
    destruct (calculate_netlist_hash_unreadable (alg := Examples.dump_alg)
                Examples.a_test Examples.with_directory ["rtl/a.v"; "rtl"]
                "rtl" Hin (ex_intro _ _ Hno))
      as (q & e & Hq & Rq & _ & Hother).
    assert (Eq : q = "rtl").
    { apply elem_of_cons in Hq as [->|Hq]; [vm_compute in Rq; discriminate|].
      apply elem_of_cons in Hq as [->|Hq]; [reflexivity | inversion Hq]. }
    subst q. vm_compute in Rq. injection Rq as <-.
    apply Hother; intros f; discriminate.
Defined.

(** The spec's C6 fails where the hash log cannot be made: there is no hash
    log, and its directory is missing too, so [open(hash_log, "w")] raises
    [FileNotFoundError] and [is_same_hash] does not answer at all. *)
Lemma is_same_hash_without_log_counterexample :
  files Examples.no_directory !! hash_log Examples.a_test = None
  /\ fst (Os.read_text (hash_log Examples.a_test) Examples.no_directory)
     = Raise (FileNotFoundError (hash_log Examples.a_test))
  /\ RunTest.is_same_hash (alg := Examples.dump_alg) Examples.a_test
       (netlist Examples.a_test) Examples.no_directory
     = (Raise (FileNotFoundError (hash_log Examples.a_test)), Examples.no_directory).
Proof. vm_compute. repeat split; reflexivity. Qed.

Lemma is_same_hash_without_log_witness :
  fst (Os.read_text (hash_log Examples.a_test) Examples.two_files)
  = Raise (FileNotFoundError (hash_log Examples.a_test))
  /\ exists w', RunTest.is_same_hash (alg := Examples.dump_alg) Examples.a_test
                  (netlist Examples.a_test) Examples.two_files = (Ok false, w').
Proof.
  assert (Hr : fst (Os.read_text (hash_log Examples.a_test) Examples.two_files)
               = Raise (FileNotFoundError (hash_log Examples.a_test)))
    by (vm_compute; reflexivity).
  split; [exact Hr|].
  destruct (is_same_hash_without_log (alg := Examples.dump_alg) Examples.a_test
              Examples.two_files (netlist Examples.a_test) Hr) as (_ & Hret & _).
  eapply Hret; vm_compute; reflexivity.
Defined.

(** The spec's C7 fails where the hash log cannot be opened: the call
    raises and the hash log is as it was. *)
Lemma is_same_hash_persists_counterexample :
  files Examples.denied_log !! hash_log Examples.a_test = Some Denied
  /\ RunTest.is_same_hash (alg := Examples.dump_alg) Examples.a_test
       (netlist Examples.a_test) Examples.denied_log
     = (Raise (PermissionError (hash_log Examples.a_test)), Examples.denied_log).
Proof. vm_compute. repeat split; reflexivity. Qed.

(** Two calls in a row on an unchanged netlist: the first answers "changed",
    the second "same", and each leaves the digest in the hash log. *)
Lemma is_same_hash_persists_witness :
  let first := RunTest.is_same_hash (alg := Examples.dump_alg) Examples.a_test
                 (netlist Examples.a_test) Examples.two_files in
  let second := RunTest.is_same_hash (alg := Examples.dump_alg) Examples.a_test
                  (netlist Examples.a_test) (snd first) in
  (exists d, fst first = Ok false
             /\ files (snd first) !! hash_log Examples.a_test = Some (Regular d))
  /\ (exists d, fst second = Ok true
                /\ files (snd second) !! hash_log Examples.a_test = Some (Regular d)).
Proof.
  cbv zeta. split.
  - assert (E : RunTest.is_same_hash (alg := Examples.dump_alg) Examples.a_test
                  (netlist Examples.a_test) Examples.two_files
                = (Ok false,
                   snd (RunTest.is_same_hash (alg := Examples.dump_alg) Examples.a_test
                          (netlist Examples.a_test) Examples.two_files)))
      by (vm_compute; reflexivity).
    destruct (proj1 (is_same_hash_persists (alg := Examples.dump_alg) Examples.a_test
                       Examples.two_files (netlist Examples.a_test)) _ _ E)
      as (d & _ & F & _).
    exists d. split; [now rewrite E | exact F].
  - assert (E : RunTest.is_same_hash (alg := Examples.dump_alg) Examples.a_test
                  (netlist Examples.a_test)
                  (snd (RunTest.is_same_hash (alg := Examples.dump_alg) Examples.a_test
                          (netlist Examples.a_test) Examples.two_files))
                = (Ok true,
                   snd (RunTest.is_same_hash (alg := Examples.dump_alg) Examples.a_test
                          (netlist Examples.a_test)
                          (snd (RunTest.is_same_hash (alg := Examples.dump_alg)
                                  Examples.a_test (netlist Examples.a_test)
                                  Examples.two_files)))))
      by (vm_compute; reflexivity).
    destruct (proj1 (is_same_hash_persists (alg := Examples.dump_alg) Examples.a_test _
                       (netlist Examples.a_test)) _ _ E)
      as (d & _ & F & _).
    exists d. split; [now rewrite E | exact F].
Defined.

(** ** Strings *)

Lemma append_cons (c : ascii) (s t : string) : String c s +:+ t = String c (s +:+ t).
Proof. reflexivity. Qed.

Lemma append_nil_r (s : string) : s +:+ EmptyString = s.
Proof. induction s as [|c s IH]; [reflexivity|]. now rewrite append_cons, IH. Qed.

Lemma append_assoc (s t u : string) : (s +:+ t) +:+ u = s +:+ (t +:+ u).
Proof. induction s as [|c s IH]; [reflexivity|]. now rewrite !append_cons, IH. Qed.

Lemma length_append (s t : string) :
  String.length (s +:+ t) = String.length s + String.length t.
Proof. induction s as [|c s IH]; [reflexivity|]. rewrite append_cons. simpl. now rewrite IH. Qed.

Lemma is_empty_true (s : string) : Str.is_empty s = true <-> s = EmptyString.
Proof. destruct s; simpl; split; congruence. Qed.

Lemma is_empty_false (s : string) : Str.is_empty s = false <-> s <> EmptyString.
Proof. destruct s; simpl; split; congruence. Qed.

(** [startswith] is the prefix relation. *)
Lemma startswith_iff (longer shorter : string) :
  Str.startswith longer shorter = true <-> exists z, longer = shorter +:+ z.
Proof.
  revert longer. induction shorter as [|c p IH]; intros longer; simpl.
  - split; [intros _; now exists longer | reflexivity].
  - destruct longer as [|d l].
    + split; [discriminate | intros [z Hz]; discriminate].
    + rewrite andb_true_iff, IH. split.
      * intros [E [z ->]]. apply Ascii.eqb_eq in E as ->. now exists z.
      * intros [z Hz]. rewrite append_cons in Hz. injection Hz as -> ->.
        split; [apply Ascii.eqb_refl | now exists z].
Qed.

Lemma strict_prefix_length (x y : string) :
  Runner.strict_prefix x y -> String.length x < String.length y.
Proof.
  intros (z & Hz & ->). rewrite length_append.
  destruct z; [congruence | simpl; lia].
Qed.

Lemma strict_prefix_startswith (x y : string) :
  Runner.strict_prefix x y -> Str.startswith y x = true.
Proof. intros (z & _ & ->). apply startswith_iff. now exists z. Qed.

Lemma startswith_strict_prefix (x y : string) :
  Str.startswith y x = true -> String.length x < String.length y ->
  Runner.strict_prefix x y.
Proof.
  intros S L. apply startswith_iff in S as [z ->]. exists z. split; [|reflexivity].
  intros ->. rewrite append_nil_r in L. lia.
Qed.

(** ** The line filter on sample lines *)

Example strip_colour :
  Ansi.strip (bcolors.OKCYAN +:+ "Compiling as sim.vvp not found" +:+ bcolors.ENDC)
  = "Compiling as sim.vvp not found".
Proof. vm_compute. reflexivity. Qed.

Example strip_keeps_broken_escape :
  Ansi.strip (bcolors.ESC +:+ "[12") = bcolors.ESC +:+ "[12".
Proof. vm_compute. reflexivity. Qed.

Example clean_line_end :
  Runner.clean (Examples.line "  VCD info: dumpfile sim.vcd  ") = "  VCD info: dumpfile sim.vcd".
Proof. vm_compute. reflexivity. Qed.

Example noise_volume_mount : RunTest.is_noise "-v /home/u/run:/home/u/run" = true.
Proof. vm_compute. reflexivity. Qed.

Example noise_is_anchored :
  RunTest.is_noise "VCD info: dumpfile sim.vcd opened" = true
  /\ RunTest.is_noise "see VCD info: dumpfile" = false.
Proof. vm_compute. split; reflexivity. Qed.

Example noise_python_warning :
  RunTest.is_noise "/usr/local/lib/python3.10/dist-packages/cocotb/x.py:12: UserWarning" = true
  /\ RunTest.is_noise "/usr/local/lib/python3.10/dist-packages/cocotb/x.py: note" = false.
Proof. vm_compute. split; reflexivity. Qed.

Example noise_table_lines :
  RunTest.is_noise "*****************" = true
  /\ RunTest.is_noise "** TEST          STATUS **" = true
  /\ RunTest.is_noise "**TEST" = false.
Proof. vm_compute. repeat split; reflexivity. Qed.

Example test_result_is_shown :
  RunTest.is_noise "Test: gpio_all_o has passed" = false.
Proof. vm_compute. reflexivity. Qed.

(** ** The command runner *)

Section RunnerProofs.

Import RunTest Runner.

Lemma clean_empty : clean EmptyString = EmptyString.
Proof. reflexivity. Qed.

Lemma content_of_insert (fs : gmap string node) (f c : string) :
  content_of (<[f := Regular c]> fs) f = c.
Proof. unfold content_of. now rewrite lookup_insert_eq. Qed.

Lemma log_to_writable (file : option string) (text : string) (fs : gmap string node) :
  writable file (log_to file text fs).
Proof.
  destruct file as [f|]; simpl; [|exact I].
  eexists. apply lookup_insert_eq.
Qed.

Lemma log_to_nil (file : option string) (fs : gmap string node) :
  writable file fs -> log_to file EmptyString fs = fs.
Proof.
  destruct file as [f|]; simpl; [|reflexivity].
  intros [c Hc]. unfold content_of. rewrite Hc, append_nil_r. now apply insert_id.
Qed.

Lemma log_to_twice (file : option string) (t1 t2 : string) (fs : gmap string node) :
  log_to file t2 (log_to file t1 fs) = log_to file (t1 +:+ t2) fs.
Proof.
  destruct file as [f|]; simpl; [|reflexivity].
  now rewrite content_of_insert, insert_insert_eq, append_assoc.
Qed.

Lemma append_spec (f text : string) (w : world) :
  files w !! f <> Some Denied ->
  Os.append f text w = (Ok tt, set_files (log_to (Some f) text) w).
Proof.
  intros N. unfold Os.append, set_files, log_to, content_of.
  destruct (files w !! f) as [[c|]|] eqn:E; try reflexivity. congruence.
Qed.

Lemma writable_not_denied (f : string) (fs : gmap string node) :
  writable (Some f) fs -> fs !! f <> Some Denied.
Proof. intros [c Hc]. congruence. Qed.

(** One turn of the loop logs [logged out] and shows [visible ... out]. *)
Lemma handle_line_spec (file : option string) (quiet : bool) (b : option string)
    (out : string) (w : world) :
  writable file (files w) ->
  exists w',
    handle_line file quiet b out w = (Ok (snd (visible quiet b out)), w')
    /\ files w' = log_to file (logged out) (files w)
    /\ console w' = console w ++ fst (visible quiet b out)
    /\ COMPILE_LOCK w' = COMPILE_LOCK w
    /\ events w' = events w.
Proof.
  intros W. unfold handle_line, visible, logged. fold (clean out).
  destruct (Str.is_empty out) eqn:Eo.
  { apply is_empty_true in Eo as ->. rewrite clean_empty. simpl.
    rewrite orb_true_r. simpl. exists w.
    rewrite (log_to_nil file _ W), app_nil_r. repeat split; reflexivity. }
  (* the line goes to the log *)
  assert (L : exists w1,
    (match file with
     | Some f =>
         if negb (Str.is_empty (clean out))
         then Os.append f (clean out +:+ Str.newline)
         else ret tt
     | None => ret tt
     end) w = (Ok tt, w1)
    /\ files w1 = log_to file (if Str.is_empty (clean out) then EmptyString
                               else clean out +:+ Str.newline) (files w)
    /\ console w1 = console w
    /\ COMPILE_LOCK w1 = COMPILE_LOCK w
    /\ events w1 = events w).
  { destruct file as [f|].
    - destruct (Str.is_empty (clean out)); cbn [negb].
      + exists w. rewrite (log_to_nil (Some f) _ W). repeat split; reflexivity.
      + rewrite (append_spec f _ w (writable_not_denied _ _ W)).
        eexists. repeat split; reflexivity.
    - exists w. repeat split; reflexivity. }
  destruct L as (w1 & E1 & F1 & C1 & K1 & V1).
  unfold bind at 1. rewrite E1.
  (* and then to the console, or not *)
  destruct quiet; simpl.
  { exists w1. rewrite app_nil_r. repeat split; assumption. }
  destruct (Str.is_empty (clean out)); simpl.
  { exists w1. rewrite app_nil_r. repeat split; assumption. }
  destruct (is_noise (clean out)); simpl.
  { exists w1. rewrite app_nil_r. repeat split; assumption. }
  destruct (is_progressive_duplicate (clean out) b).
  { destruct (Nat.ltb _ _); simpl; exists w1; rewrite app_nil_r;
      repeat split; assumption. }
  simpl. destruct b as [line|]; simpl; unfold bind, Os.print, modify, ret; simpl.
  - eexists. split; [reflexivity|]. simpl. rewrite C1. repeat split; assumption.
  - exists w1. rewrite app_nil_r. repeat split; assumption.
Qed.

Lemma read_lines_spec (file : option string) (quiet : bool) (lines : list string) :
  forall (b : option string) (w : world),
  writable file (files w) ->
  exists w',
    read_lines file quiet b lines w = (Ok (snd (shown quiet b lines)), w')
    /\ files w' = log_to file (log_body lines) (files w)
    /\ console w' = console w ++ fst (shown quiet b lines)
    /\ COMPILE_LOCK w' = COMPILE_LOCK w
    /\ events w' = events w.
Proof.
  induction lines as [|out lines IH]; intros b w W.
  - exists w. simpl. rewrite (log_to_nil file _ W), app_nil_r. repeat split; reflexivity.
  - destruct (handle_line_spec file quiet b out w W) as (w1 & E1 & F1 & C1 & K1 & V1).
    assert (W1 : writable file (files w1)) by (rewrite F1; apply log_to_writable).
    destruct (IH (snd (visible quiet b out)) w1 W1) as (w2 & E2 & F2 & C2 & K2 & V2).
    exists w2. simpl. unfold bind at 1. rewrite E1.
    destruct (visible quiet b out) as [now b1]. simpl in *.
    destruct (shown quiet b1 lines) as [later b2]. simpl in *.
    split; [exact E2|].
    split; [now rewrite F2, F1, log_to_twice|].
    split; [now rewrite C2, C1, app_assoc|].
    split; congruence.
Qed.

Lemma flush_buffer_spec (b : option string) (w : world) :
  flush_buffer b w = (Ok None, set_console (fun c => c ++ flushed b) w).
Proof.
  destruct b as [line|]; simpl; [reflexivity|].
  unfold ret, set_console. rewrite app_nil_r. now destruct w.
Qed.

(** The whole of [run_command_write_to_file], when the log file can be
    opened and the child leaves a log file that can still be written. *)
Lemma run_command_spec (sh : host) (cmd : tool) (file : option string) (quiet : bool)
    (w : world) (lines : list string) (rc : Z) (fs' : gmap string node) :
  (forall f, file = Some f -> files w !! f <> Some Denied) ->
  popen sh cmd (log_to file (log_header sh cmd) (files w))
    = ({| stdout_lines := lines; returncode := rc |}, fs') ->
  writable file fs' ->
  exists w',
    run_command_write_to_file sh cmd file quiet w = (Ok rc, w')
    /\ files w' = log_to file (log_body lines) fs'
    /\ console w' = console w ++ printed quiet lines
    /\ COMPILE_LOCK w' = COMPILE_LOCK w
    /\ events w' = events w ++ [Spawned cmd].
Proof.
  intros N P W. unfold run_command_write_to_file.
  assert (Hd : exists w1,
    (match file with
     | Some f =>
         Os.append f ("command:" +:+ Str.newline) ;;;
         Os.append f (command_text sh cmd +:+ Str.newline +:+ Str.newline) ;;;
         Os.append f (Str.repeat "-" 60 +:+ Str.newline)
     | None => ret tt
     end) w = (Ok tt, w1)
    /\ files w1 = log_to file (log_header sh cmd) (files w)
    /\ console w1 = console w
    /\ COMPILE_LOCK w1 = COMPILE_LOCK w
    /\ events w1 = events w).
  { destruct file as [f|]; [|exists w; repeat split; reflexivity].
    unfold bind. rewrite (append_spec f _ w (N f eq_refl)).
    rewrite append_spec
      by (apply writable_not_denied; apply (log_to_writable (Some f))).
    rewrite append_spec
      by (apply writable_not_denied; apply (log_to_writable (Some f))).
    eexists. split; [reflexivity|]. split; [|repeat split; reflexivity].
    unfold set_files. cbn [files]. rewrite !log_to_twice. unfold log_header.
    now rewrite ?append_assoc. }
  destruct Hd as (w1 & E1 & F1 & C1 & K1 & V1).
  unfold bind at 1. rewrite E1.
  unfold bind at 1, Popen at 1. rewrite F1, P.
  set (w2 := set_events _ _).
  assert (W2 : writable file (files w2)) by exact W.
  destruct (read_lines_spec file quiet lines None w2 W2) as (w3 & E3 & F3 & C3 & K3 & V3).
  cbn [stdout_lines returncode].
  unfold bind at 1, try_except, bind at 1. rewrite E3. cbv beta iota.
  unfold bind at 1. rewrite flush_buffer_spec.
  unfold ret. eexists. split; [reflexivity|]. simpl.
  unfold printed. destruct (shown quiet None lines) as [during b]. simpl in *.
  rewrite F3, C3, K3, V3. subst w2. simpl. rewrite C1, K1, V1, app_assoc.
  repeat split; reflexivity.
Qed.

(** Nothing that matches a noise pattern reaches the console or the buffer. *)
Lemma visible_not_noise (quiet : bool) (b : option string) (out : string) :
  (forall l, b = Some l -> is_noise l = false) ->
  Forall (fun p => is_noise p = false) (fst (visible quiet b out))
  /\ (forall l, snd (visible quiet b out) = Some l -> is_noise l = false).
Proof.
  intros Hb. unfold visible.
  destruct quiet; simpl; [split; [constructor | exact Hb]|].
  destruct (Str.is_empty (clean out)); simpl; [split; [constructor | exact Hb]|].
  destruct (is_noise (clean out)) eqn:En; simpl; [split; [constructor | exact Hb]|].
  destruct (is_progressive_duplicate (clean out) b); simpl.
  - split; [constructor|]. destruct (Nat.ltb _ _); [|exact Hb].
    intros l [= <-]. exact En.
  - split; [|intros l [= <-]; exact En].
    destruct b as [l|]; simpl; constructor; [now apply Hb | constructor].
Qed.

Lemma shown_not_noise (quiet : bool) (lines : list string) :
  forall b : option string,
  (forall l, b = Some l -> is_noise l = false) ->
  Forall (fun p => is_noise p = false) (fst (shown quiet b lines))
  /\ (forall l, snd (shown quiet b lines) = Some l -> is_noise l = false).
Proof.
  induction lines as [|out lines IH]; intros b Hb; simpl.
  - split; [constructor | exact Hb].
  - destruct (visible_not_noise quiet b out Hb) as [H1 H2].
    destruct (visible quiet b out) as [now b1]. simpl in *.
    destruct (IH b1 H2) as [H3 H4].
    destruct (shown quiet b1 lines) as [later b2]. simpl in *.
    split; [now apply Forall_app | exact H4].
Qed.

Lemma printed_not_noise (quiet : bool) (lines : list string) :
  Forall (fun p => is_noise p = false) (printed quiet lines).
Proof.
  unfold printed.
  destruct (shown_not_noise quiet lines None) as [H1 H2]; [discriminate|].
  destruct (shown quiet None lines) as [during b]. simpl in *.
  apply Forall_app. split; [exact H1|].
  destruct b as [l|]; simpl; constructor; [now apply H2 | constructor].
Qed.


(** When is a line a progressive duplicate of the buffered one. *)
Lemma is_progressive_duplicate_iff (line1 line2 : string) :
  line1 <> EmptyString -> line2 <> EmptyString ->
  is_progressive_duplicate line1 (Some line2) = true <->
  (strict_prefix line1 line2 /\ String.length line1 + 2 < String.length line2)
  \/ (strict_prefix line2 line1 /\ String.length line2 + 2 < String.length line1).
Proof.
  intros N1 N2. unfold is_progressive_duplicate.
  apply is_empty_false in N1, N2. rewrite N1, N2. simpl.
  destruct (Nat.ltb (String.length line1) (String.length line2)) eqn:L.
  - apply Nat.ltb_lt in L. rewrite andb_true_iff, Nat.ltb_lt. split.
    + intros [S G]. left. split; [now apply startswith_strict_prefix | exact G].
    + intros [[P G]|[P G]].
      * split; [now apply strict_prefix_startswith | exact G].
      * apply strict_prefix_length in P. lia.
  - apply Nat.ltb_ge in L. rewrite andb_true_iff, Nat.ltb_lt. split.
    + intros [S G]. right. split; [apply startswith_strict_prefix; [exact S | lia] | exact G].
    + intros [[P G]|[P G]].
      * apply strict_prefix_length in P. lia.
      * split; [now apply strict_prefix_startswith | exact G].
Qed.

(** What a line that is not noise does to the buffer. *)
Lemma visible_buffered (b : option string) (out : string) :
  clean out <> EmptyString -> is_noise (clean out) = false ->
  visible false b out =
    if is_progressive_duplicate (clean out) b
    then ([], if Nat.ltb (len_or_empty b) (String.length (clean out))
              then Some (clean out) else b)
    else (flushed b, Some (clean out)).
Proof.
  intros E N. apply is_empty_false in E.
  unfold visible. cbv zeta. now rewrite E, N.
Qed.

(** The test of the code on two lines that are not empty: one of them is
    the other with more than two characters after it. *)
Lemma duplicate_extends (c l : string) :
  c <> EmptyString -> l <> EmptyString ->
  is_progressive_duplicate c (Some l) = Further.extends c l || Further.extends l c.
Proof.
  intros Nc Nl. unfold is_progressive_duplicate, Further.extends.
  apply is_empty_false in Nc, Nl. rewrite Nc, Nl. cbn [orb].
  destruct (Nat.ltb (String.length c) (String.length l)) eqn:L.
  - apply Nat.ltb_lt in L.
    assert (Nat.ltb (String.length l + 2) (String.length c) = false) as ->
      by (apply Nat.ltb_ge; lia).
    now rewrite andb_false_r.
  - apply Nat.ltb_ge in L.
    assert (Nat.ltb (String.length c + 2) (String.length l) = false) as ->
      by (apply Nat.ltb_ge; lia).
    now rewrite andb_false_r, orb_false_r.
Qed.

Lemma extends_longer (c l : string) :
  Further.extends c l = true -> String.length l < String.length c.
Proof.
  unfold Further.extends. intros E. apply andb_true_iff in E as [_ E].
  apply Nat.ltb_lt in E. lia.
Qed.

(** The loop and the flush after it, on any lines and from any buffer that
    does not hold an empty line. *)
Lemma shown_through_buffer (lines : list string) :
  forall b : option string,
  b <> Some EmptyString ->
  fst (shown false b lines) ++ flushed (snd (shown false b lines))
  = Further.through_buffer b (Further.kept lines).
Proof.
  induction lines as [|out lines IH]; intros b Nb; [reflexivity|].
  cbn [shown].
  assert (K : Further.kept (out :: lines)
              = if negb (Str.is_empty (clean out)) && negb (is_noise (clean out))
                then clean out :: Further.kept lines else Further.kept lines)
    by reflexivity.
  rewrite K.
  destruct (Str.is_empty (clean out)) eqn:Ee.
  { unfold visible. cbv zeta. rewrite Ee. cbn [orb negb andb].
    specialize (IH b Nb). destruct (shown false b lines) as [later b2]. exact IH. }
  destruct (is_noise (clean out)) eqn:En.
  { unfold visible. cbv zeta. rewrite Ee, En. cbn [orb negb andb].
    specialize (IH b Nb). destruct (shown false b lines) as [later b2]. exact IH. }
  cbn [negb andb].
  assert (Nc : clean out <> EmptyString) by now apply is_empty_false.
  rewrite (visible_buffered b out Nc En).
  assert (Sc : Some (clean out) <> Some EmptyString) by congruence.
  destruct b as [l|]; cbn [Further.through_buffer].
  - assert (Nl : l <> EmptyString) by congruence.
    rewrite (duplicate_extends (clean out) l Nc Nl). cbn [len_or_empty].
    destruct (Further.extends (clean out) l) eqn:E1; cbn [orb].
    + apply extends_longer in E1. apply Nat.ltb_lt in E1. rewrite E1.
      specialize (IH (Some (clean out)) Sc).
      destruct (shown false (Some (clean out)) lines) as [later b2]. exact IH.
    + destruct (Further.extends l (clean out)) eqn:E2.
      * apply extends_longer in E2.
        assert (Nat.ltb (String.length l) (String.length (clean out)) = false) as ->
          by (apply Nat.ltb_ge; lia).
        specialize (IH (Some l) Nb).
        destruct (shown false (Some l) lines) as [later b2]. exact IH.
      * specialize (IH (Some (clean out)) Sc).
        destruct (shown false (Some (clean out)) lines) as [later b2].
        cbn [fst snd flushed] in *. rewrite <- IH. reflexivity.
  - change (is_progressive_duplicate (clean out) None) with false. cbv iota.
    specialize (IH (Some (clean out)) Sc).
    destruct (shown false (Some (clean out)) lines) as [later b2]. exact IH.
Qed.

(** C2, as the code has it.  Of the output of the command, the lines that
    can reach the console are the cleaned lines that are neither empty nor
    noise.  The run holds one line in a buffer and compares every such line
    with the buffered line (not with the line before it).  When the new
    line is the buffered line with more than two characters after it, it
    takes its place; when the buffered line is the new line with more than
    two characters after it, the new line is dropped; nothing is printed
    for either.  Any other line has the buffered line printed and takes its
    place, and the line left in the buffer is printed at the end.  This
    holds for every output, of any length, of a run whose log file, if it
    has one, can be opened (or made) and is left alone by the child. *)
Theorem console_follows_the_buffer (sh : host) (cmd : tool) (file : option string)
    (w : world) (lines : list string) (rc : Z) (fs' : gmap string node) :
  (forall f, file = Some f -> files w !! f <> Some Denied) ->
  (forall f, file = Some f -> files w !! f = None -> write_refusal w !! f = None) ->
  popen sh cmd (log_to file (log_header sh cmd) (files w))
    = ({| stdout_lines := lines; returncode := rc |}, fs') ->
  writable file fs' ->
  exists w',
    run_command_write_to_file sh cmd file false w = (Ok rc, w')
    /\ console w' = console w ++ Further.through_buffer None (Further.kept lines).
Proof.
  intros N _ P W.
  destruct (run_command_spec sh cmd file false w lines rc fs' N P W)
    as (w' & E & _ & C & _).
  exists w'. split; [exact E|].
  rewrite C. f_equal. unfold printed.
  pose proof (shown_through_buffer lines None) as S.
  destruct (shown false None lines) as [during b]. apply S. discriminate.
Qed.


End RunnerProofs.

(** The spec's C2 fails twice.  "ab" is a strict prefix of "abc", and both
    are printed: the code asks for more than two characters more.  And in
    "abcdefgh", "abc", "xyz" the consecutive lines "abc" and "xyz" are no
    prefixes of each other, yet "abc" is not printed: it was dropped as a
    shorter form of the buffered "abcdefgh". *)
Lemma progressive_pair_counterexample :
  (Runner.strict_prefix "ab" "abc"
   /\ RunTest.is_noise "ab" = false /\ RunTest.is_noise "abc" = false
   /\ Examples.printed [Examples.line "ab"; Examples.line "abc"] = ["ab"; "abc"])
  /\ (~ Runner.strict_prefix "abc" "xyz" /\ ~ Runner.strict_prefix "xyz" "abc"
      /\ RunTest.is_noise "abc" = false /\ RunTest.is_noise "xyz" = false
      /\ Examples.printed
           [Examples.line "abcdefgh"; Examples.line "abc"; Examples.line "xyz"]
         = ["abcdefgh"; "xyz"]).
Proof.
  split.
  - split; [exists "c"; split; [discriminate | reflexivity]|].
    repeat split; vm_compute; reflexivity.
  - split; [intros (z & _ & E); discriminate E|].
    split; [intros (z & _ & E); discriminate E|].
    repeat split; vm_compute; reflexivity.
Qed.

(** "Compiling" then "Compiling foo.v" shows the longer line only;
    "Compiling" then "Linking" shows both; and with a noise line and an
    empty line between them, and a third line after them, the same
    holds. *)
Lemma console_follows_the_buffer_witness :
  Examples.printed [Examples.line "Compiling"; Examples.line "Compiling foo.v"]
    = ["Compiling foo.v"]
  /\ Examples.printed [Examples.line "Compiling"; Examples.line "Linking"]
    = ["Compiling"; "Linking"]
  /\ Examples.printed
       [Examples.line "Compiling"; Examples.line "x.py:1: DeprecationWarning: y";
        Examples.line ""; Examples.line "Compiling foo.v"; Examples.line "Linking"]
    = ["Compiling foo.v"; "Linking"].
Proof.
  assert (R : forall lines,
    Examples.printed lines = Further.through_buffer None (Further.kept lines)).
  { intros lines.
    destruct (console_follows_the_buffer (Examples.printing lines) Vvp None Examples.blank
                lines 0 ∅) as (w' & E & C);
      [intros f [=] | intros f [=] | reflexivity | exact I |].
    unfold Examples.printed. rewrite E. cbn [snd]. rewrite C. reflexivity. }
  rewrite !R. repeat split; vm_compute; reflexivity.
Defined.



(** ** The compile lock *)

Section LockProofs.

Context {alg : HashAlg} (sh : host).
Import RunTest.

Create HintDb kl.

Variable x : string.
Variable P : tool -> Prop.

Lemma kl_frame {A : Type} (m : M world A) :
  (forall w, COMPILE_LOCK (snd (m w)) = COMPILE_LOCK w /\ events (snd (m w)) = events w) ->
  keeps_locked x P m.
Proof.
  intros F w Hx. destruct (F w) as [L E]. rewrite L, E. split; [exact Hx|].
  exists []. split; [now rewrite app_nil_r | constructor].
Qed.

Lemma kl_ret {A : Type} (a : A) : keeps_locked x P (ret a).
Proof. apply kl_frame. intros w. split; reflexivity. Qed.

Lemma kl_raise {A : Type} (e : exn) : keeps_locked x P (raise (A := A) e).
Proof. apply kl_frame. intros w. split; reflexivity. Qed.

Lemma kl_bind {A B : Type} (m : M world A) (k : A -> M world B) :
  keeps_locked x P m -> (forall a, keeps_locked x P (k a)) ->
  keeps_locked x P (bind m k).
Proof.
  intros Hm Hk w Hx. unfold bind.
  destruct (Hm w Hx) as (L1 & new1 & E1 & S1).
  destruct (m w) as [[a|e] w1]; simpl in *.
  - destruct (Hk a w1 L1) as (L2 & new2 & E2 & S2).
    split; [exact L2|]. exists (new1 ++ new2).
    split; [now rewrite E2, E1, app_assoc | now apply Forall_app].
  - split; [exact L1|]. now exists new1.
Qed.

Lemma kl_try {A : Type} (m : M world A) (h : exn -> M world A) :
  keeps_locked x P m -> (forall e, keeps_locked x P (h e)) ->
  keeps_locked x P (try_except m h).
Proof.
  intros Hm Hh w Hx. unfold try_except.
  destruct (Hm w Hx) as (L1 & new1 & E1 & S1).
  destruct (m w) as [[a|e] w1]; simpl in *.
  - split; [exact L1|]. now exists new1.
  - destruct (Hh e w1 L1) as (L2 & new2 & E2 & S2).
    split; [exact L2|]. exists (new1 ++ new2).
    split; [now rewrite E2, E1, app_assoc | now apply Forall_app].
Qed.

(** After [get] the rest runs in the world it was given. *)
Lemma kl_get {B : Type} (k : world -> M world B) :
  (forall w0, x ∈ COMPILE_LOCK w0 -> keeps_locked x P (k w0)) ->
  keeps_locked x P (bind get k).
Proof. intros Hk w Hx. unfold bind, get. now apply Hk. Qed.

Lemma kl_read (path : string) : keeps_locked x P (Os.read path).
Proof.
  apply kl_frame. intros w. unfold Os.read.
  destruct (files w !! path) as [[c|]|]; split; reflexivity.
Qed.

Lemma kl_write (path text : string) : keeps_locked x P (Os.write path text).
Proof.
  apply kl_frame. intros w. unfold Os.write.
  destruct (files w !! path) as [[c|]|]; [| |destruct (write_refusal w !! path)];
    split; reflexivity.
Qed.

Lemma kl_append (path text : string) : keeps_locked x P (Os.append path text).
Proof.
  apply kl_frame. intros w. unfold Os.append.
  destruct (files w !! path) as [[c|]|]; split; reflexivity.
Qed.

Lemma kl_print (line : string) : keeps_locked x P (Os.print line).
Proof. apply kl_frame. intros w. split; reflexivity. Qed.

Lemma kl_remove (path : string) : keeps_locked x P (Os.remove path).
Proof. apply kl_frame. intros w. split; reflexivity. Qed.

Lemma kl_lock (y : string) : keeps_locked x P (lock y).
Proof.
  intros w Hx. simpl. split; [set_solver|].
  exists []. split; [now rewrite app_nil_r | constructor].
Qed.

Lemma kl_Popen (cmd : tool) : P cmd -> keeps_locked x P (Popen sh cmd).
Proof.
  intros Hc w Hx. unfold Popen. destruct (popen sh cmd (files w)) as [proc fs].
  simpl. split; [exact Hx|]. exists [Spawned cmd]. split; [reflexivity|].
  constructor; [exact Hc | constructor].
Qed.

#[local] Hint Resolve kl_ret kl_raise kl_read kl_write kl_append kl_print kl_remove kl_lock : kl.

Lemma kl_hash_files (paths : list string) :
  forall h : hash_obj, keeps_locked x P (hash_files paths h).
Proof.
  induction paths as [|p ps IH]; intros h; simpl; [apply kl_ret|].
  apply kl_bind; [apply kl_read | intros c; apply IH].
Qed.

Lemma kl_calculate (netlist : list string) :
  keeps_locked x P (calculate_netlist_hash netlist).
Proof.
  unfold calculate_netlist_hash. apply kl_try.
  - apply kl_bind; [apply kl_hash_files | intros h; apply kl_ret].
  - intros e; destruct e; auto with kl.
Qed.

Lemma kl_write_hash (t : test) (netlist : list string) :
  keeps_locked x P (write_hash t netlist).
Proof.
  unfold write_hash. apply kl_bind; [apply kl_calculate|]. intros d.
  apply kl_bind; [apply kl_write | intros _; apply kl_ret].
Qed.

Lemma kl_is_same_hash (t : test) (netlist : list string) :
  keeps_locked x P (is_same_hash t netlist).
Proof.
  unfold is_same_hash. apply kl_bind.
  - apply kl_try.
    + unfold Os.read_text.
      apply kl_bind; [|intros c; apply kl_ret].
      apply kl_bind; [apply kl_read | intros c; apply kl_ret].
    + intros e; destruct e; auto with kl.
  - intros old. apply kl_bind; [apply kl_write_hash | intros d; apply kl_ret].
Qed.

Lemma kl_flush_buffer (b : option string) : keeps_locked x P (flush_buffer b).
Proof.
  destruct b as [l|]; simpl; [|apply kl_ret].
  apply kl_bind; [apply kl_print | intros _; apply kl_ret].
Qed.

Lemma kl_handle_line (file : option string) (quiet : bool) (b : option string)
    (out : string) :
  keeps_locked x P (handle_line file quiet b out).
Proof.
  unfold handle_line. destruct (Str.is_empty out); [apply kl_ret|].
  apply kl_bind.
  - destruct file as [f|]; [|apply kl_ret].
    destruct (negb _); [apply kl_append | apply kl_ret].
  - intros _. destruct (negb quiet && _); [|apply kl_ret].
    destruct (negb _); [|apply kl_ret].
    destruct (is_progressive_duplicate _ _).
    + destruct (Nat.ltb _ _); apply kl_ret.
    + apply kl_bind; [apply kl_flush_buffer | intros _; apply kl_ret].
Qed.

Lemma kl_read_lines (file : option string) (quiet : bool) (lines : list string) :
  forall b : option string, keeps_locked x P (read_lines file quiet b lines).
Proof.
  induction lines as [|out lines IH]; intros b; simpl; [apply kl_ret|].
  apply kl_bind; [apply kl_handle_line | intros b'; apply IH].
Qed.

(** The command runner starts the process of its command and no other. *)
Lemma kl_run_command (cmd : tool) (file : option string) (quiet : bool) :
  P cmd -> keeps_locked x P (run_command_write_to_file sh cmd file quiet).
Proof.
  intros Hc. unfold run_command_write_to_file. apply kl_bind.
  - destruct file as [f|]; [|apply kl_ret].
    repeat (apply kl_bind; [apply kl_append | intros _]). apply kl_append.
  - intros _. apply kl_bind; [now apply kl_Popen|]. intros proc.
    apply kl_bind; [|intros _; apply kl_ret].
    apply kl_try; [|intros e; apply kl_ret].
    apply kl_bind; [apply kl_read_lines|]. intros b.
    apply kl_bind; [apply kl_flush_buffer | intros _; apply kl_ret].
Qed.

Lemma kl_iverilog_compile (a : args) (t : test) :
  P Iverilog -> keeps_locked x P (iverilog_compile sh a t).
Proof.
  intros Hc. unfold iverilog_compile. apply kl_get. intros w0 _.
  apply kl_bind; [destruct (Os.isfile _ _); [apply kl_remove | apply kl_ret]|].
  intros _. apply kl_bind; [now apply kl_run_command | intros _; apply kl_ret].
Qed.

Lemma kl_iverilog_run (a : args) (t : test) :
  P Vvp -> keeps_locked x P (iverilog_run sh a t).
Proof.
  intros Hc. unfold iverilog_run.
  apply kl_bind; [now apply kl_run_command | intros _; apply kl_ret].
Qed.

Lemma kl_vcs_compile (a : args) (t : test) :
  P Vlogan -> P Vcs -> keeps_locked x P (vcs_compile sh a t).
Proof.
  intros H1 H2. unfold vcs_compile. apply kl_get. intros w0 _.
  apply kl_bind; [destruct (Os.isfile _ _); [apply kl_remove | apply kl_ret]|].
  intros _. apply kl_bind; [now apply kl_run_command | intros _].
  apply kl_bind; [now apply kl_run_command | intros _; apply kl_ret].
Qed.

Lemma kl_vcs_run (a : args) (t : test) :
  P Simv -> keeps_locked x P (vcs_run sh a t).
Proof.
  intros Hc. unfold vcs_run.
  apply kl_bind; [now apply kl_run_command | intros _; apply kl_ret].
Qed.

End LockProofs.

Section CompileOnce.

Context {alg : HashAlg} (sh : host).
Import RunTest.

Lemma bind_get {A : Type} (k : world -> M world A) (w : world) :
  bind get k w = k w w.
Proof. reflexivity. Qed.

(** Whatever the flags and the test, a run of either track leaves locked
    what was locked. *)
Lemma runTest_iverilog_keeps_locked (a : args) (t : test) (x : string) :
  keeps_locked x (fun _ => True) (runTest_iverilog sh a t).
Proof.
  unfold runTest_iverilog. destruct (String.eqb (sim t) "GL_SDF"); [apply kl_raise|].
  apply kl_get. intros w0 _. apply kl_bind.
  - destruct (negb (Os.isfile _ _)); [|destruct (compile a)].
    + apply kl_bind; [apply kl_print | intros _].
      apply kl_bind; [now apply kl_iverilog_compile | intros _].
      apply kl_bind; [apply kl_write_hash | intros _; apply kl_ret].
    + apply kl_bind; [apply kl_print | intros _].
      apply kl_bind; [now apply kl_iverilog_compile | intros _].
      apply kl_bind; [apply kl_write_hash | intros _; apply kl_ret].
    + apply kl_bind; [apply kl_is_same_hash | intros same].
      apply kl_get. intros w1 _.
      destruct (negb same && _).
      * apply kl_bind; [apply kl_print | intros _; now apply kl_iverilog_compile].
      * destruct (negb _); [apply kl_print | apply kl_ret].
  - intros _. apply kl_bind; [apply kl_lock | intros _].
    destruct (negb (compile_only a)); [now apply kl_iverilog_run | apply kl_ret].
Qed.

Lemma runTest_vcs_keeps_locked (a : args) (t : test) (x : string) :
  keeps_locked x (fun _ => True) (runTest_vcs sh a t).
Proof.
  unfold runTest_vcs.
  apply kl_get. intros w0 _. apply kl_bind.
  - destruct (negb (Os.isfile _ _)); [|destruct (compile a)].
    + apply kl_bind; [apply kl_print | intros _].
      apply kl_bind; [now apply kl_vcs_compile | intros _].
      apply kl_bind; [apply kl_write_hash | intros _; apply kl_ret].
    + apply kl_bind; [apply kl_print | intros _].
      apply kl_bind; [now apply kl_vcs_compile | intros _].
      apply kl_bind; [apply kl_write_hash | intros _; apply kl_ret].
    + apply kl_bind; [apply kl_is_same_hash | intros same].
      apply kl_get. intros w1 _.
      destruct (negb same && _).
      * apply kl_bind; [apply kl_print | intros _; now apply kl_vcs_compile].
      * destruct (negb _); [apply kl_print | apply kl_ret].
  - intros _. apply kl_bind; [apply kl_lock | intros _].
    destruct (negb (compile_only a)); [now apply kl_vcs_run | apply kl_ret].
Qed.

(** The fourth branch: with the artifact locked the hash is checked and
    stored, but its answer does not lead to a compilation. *)
Lemma locked_branch (t : test) (artifact : string) (P : tool -> Prop)
    (recompile : M world unit) (skipped : string) :
  keeps_locked artifact P
    (let* same := is_same_hash t (netlist t) in
     let* w := get in
     if negb same && negb (bool_decide (artifact ∈ COMPILE_LOCK w)) then recompile
     else if negb (bool_decide (artifact ∈ COMPILE_LOCK w)) then Os.print skipped
          else ret tt).
Proof.
  apply kl_bind; [apply kl_is_same_hash | intros same].
  apply kl_get. intros w1 Hx.
  rewrite (bool_decide_eq_true_2 _ Hx), andb_false_r. cbn [negb]. apply kl_ret.
Qed.

Lemma spawned_only_eq (c : tool) (new : list event) :
  spawned_only (fun tl => tl = c) new -> Forall (fun e => e = Spawned c) new.
Proof.
  unfold spawned_only. intros F. eapply Forall_impl; [exact F|].
  intros [tl] E. simpl in E. now rewrite E.
Qed.

Lemma runTest_iverilog_locked (a : args) (t : test) (w : world) :
  compile a = false ->
  sim_vvp t ∈ COMPILE_LOCK w -> Os.isfile (files w) (sim_vvp t) = true ->
  sim_vvp t ∈ COMPILE_LOCK (snd (runTest_iverilog sh a t w))
  /\ exists new, events (snd (runTest_iverilog sh a t w)) = events w ++ new
                 /\ spawned_only (fun tl => tl = Vvp) new.
Proof.
  intros Hc Hx Hf. unfold runTest_iverilog.
  destruct (String.eqb (sim t) "GL_SDF"); [exact (kl_raise _ _ _ w Hx)|].
  rewrite bind_get. cbv beta. rewrite Hf, Hc. cbn [negb].
  refine (kl_bind (sim_vvp t) (fun tl => tl = Vvp) _ _ _ _ w Hx).
  - apply locked_branch.
  - intros _. apply kl_bind; [apply kl_lock | intros _].
    destruct (negb (compile_only a)); [now apply kl_iverilog_run | apply kl_ret].
Qed.

Lemma runTest_vcs_locked (a : args) (t : test) (w : world) :
  compile a = false ->
  simv t ∈ COMPILE_LOCK w -> Os.isfile (files w) (simv t) = true ->
  simv t ∈ COMPILE_LOCK (snd (runTest_vcs sh a t w))
  /\ exists new, events (snd (runTest_vcs sh a t w)) = events w ++ new
                 /\ spawned_only (fun tl => tl = Simv) new.
Proof.
  intros Hc Hx Hf. unfold runTest_vcs.
  rewrite bind_get. cbv beta. rewrite Hf, Hc. cbn [negb].
  refine (kl_bind (simv t) (fun tl => tl = Simv) _ _ _ _ w Hx).
  - apply locked_branch.
  - intros _. apply kl_bind; [apply kl_lock | intros _].
    destruct (negb (compile_only a)); [now apply kl_vcs_run | apply kl_ret].
Qed.

(** C1.  Once the artifact of a track ([sim.vvp] or [simv] in the
    compilation directory) is in the compile lock, a run of that track that
    finds the artifact on disk and the compile flag not set starts no
    compiler, whatever the hash log and the netlist hold: the only process
    it may start is the simulation itself, and the artifact stays locked.
    And no run of either track, with any flags and any test, takes a path
    out of the lock. *)
Theorem compile_lock_compiles_once (a : args) (t : test) (w : world) :
  compile a = false ->
  (sim_vvp t ∈ COMPILE_LOCK w -> Os.isfile (files w) (sim_vvp t) = true ->
   let w' := snd (runTest_iverilog sh a t w) in
   sim_vvp t ∈ COMPILE_LOCK w'
   /\ exists new, events w' = events w ++ new
                  /\ Forall (fun e => e = Spawned Vvp) new)
  /\ (simv t ∈ COMPILE_LOCK w -> Os.isfile (files w) (simv t) = true ->
      let w' := snd (runTest_vcs sh a t w) in
      simv t ∈ COMPILE_LOCK w'
      /\ exists new, events w' = events w ++ new
                     /\ Forall (fun e => e = Spawned Simv) new)
  /\ (forall (a' : args) (t' : test) (x : string), x ∈ COMPILE_LOCK w ->
        x ∈ COMPILE_LOCK (snd (runTest_iverilog sh a' t' w))
        /\ x ∈ COMPILE_LOCK (snd (runTest_vcs sh a' t' w))).
Proof.
  intros Hc. split; [|split].
  - intros Hx Hf w'. subst w'.
    destruct (runTest_iverilog_locked a t w Hc Hx Hf) as (L & new & E & S).
    split; [exact L|]. exists new. split; [exact E | now apply spawned_only_eq].
  - intros Hx Hf w'. subst w'.
    destruct (runTest_vcs_locked a t w Hc Hx Hf) as (L & new & E & S).
    split; [exact L|]. exists new. split; [exact E | now apply spawned_only_eq].
  - intros a' t' x Hx. split.
    + now apply (runTest_iverilog_keeps_locked a' t' x w Hx).
    + now apply (runTest_vcs_keeps_locked a' t' x w Hx).
Qed.

End CompileOnce.

(** The artifact is on disk and locked and the hash log holds another
    digest than the netlist has now: [is_same_hash] answers "changed", and
    yet the run starts the simulation only. *)
Lemma compile_lock_compiles_once_witness :
  let art := RunTest.sim_vvp Examples.a_test in
  let w := Examples.locked_stale art in
  let w' := snd (RunTest.runTest_iverilog (alg := Examples.dump_alg)
                   (Examples.compiling art) Examples.normal_args Examples.a_test w) in
  compile Examples.normal_args = false
  /\ art ∈ COMPILE_LOCK w
  /\ Os.isfile (files w) art = true
  /\ fst (RunTest.is_same_hash (alg := Examples.dump_alg) Examples.a_test
            (netlist Examples.a_test) w) = Ok false
  /\ art ∈ COMPILE_LOCK w'
  /\ exists new, events w' = events w ++ new /\ Forall (fun e => e = Spawned Vvp) new.
Proof.
  intros art w w'.
  assert (Hc : compile Examples.normal_args = false) by reflexivity.
  assert (Hx : art ∈ COMPILE_LOCK w) by (vm_compute; reflexivity).
  assert (Hf : Os.isfile (files w) art = true) by (vm_compute; reflexivity).
  split; [exact Hc|]. split; [exact Hx|]. split; [exact Hf|].
  split; [vm_compute; reflexivity|].
  exact (proj1 (compile_lock_compiles_once (alg := Examples.dump_alg)
                  (Examples.compiling art) Examples.normal_args Examples.a_test w Hc)
           Hx Hf).
Defined.

(** ** The OpenFrame pins *)

Section GpioProofs.

Import OpenFrame.

Variable self : OpenFrame_env.

Lemma emit_spec (a : action) (s : sim) : emit a s = (Ok tt, with_trace s [a]).
Proof. reflexivity. Qed.

Lemma with_trace_app (s : sim) (l1 l2 : list action) :
  with_trace (with_trace s l1) l2 = with_trace s (l1 ++ l2).
Proof. unfold with_trace. simpl. now rewrite app_assoc. Qed.

Lemma with_trace_nil (s : sim) : with_trace s [] = s.
Proof. unfold with_trace. rewrite app_nil_r. now destruct s. Qed.

Lemma dut_id_spec (signal : string) (s : sim) :
  dut_id signal s =
    (match dut s !! signal with
     | Some _ => Ok signal
     | None => Raise (AttributeError signal)
     end, with_trace s [GetHandle signal]).
Proof.
  unfold dut_id, bind, get. rewrite emit_spec. simpl.
  destruct (dut s !! signal); reflexivity.
Qed.

(** A negative index is written with its sign. *)
Lemma str_of_int_negative (n : Z) :
  (n < 0)%Z -> str_of_int n = "-" +:+ str_of_int (- n).
Proof. destruct n as [|p|p]; try lia. intros _. reflexivity. Qed.

Lemma guard_taken (n : Z) :
  (active_gpios_num self <= n)%Z -> (n >=? active_gpios_num self)%Z = true.
Proof. intros. apply Z.geb_le. lia. Qed.

Lemma guard_passed (n : Z) :
  (n < active_gpios_num self)%Z -> (n >=? active_gpios_num self)%Z = false.
Proof. intros. rewrite Z.geb_leb. apply Z.leb_gt. lia. Qed.

(** [drive_gpio] below the pin count, by the signals the testbench has. *)
Lemma drive_gpio_below (n v : Z) (s : sim) :
  (n < active_gpios_num self)%Z ->
  drive_gpio self n v s =
    match dut s !! en_signal n with
    | None => (Raise (AttributeError (en_signal n)), with_trace s [GetHandle (en_signal n)])
    | Some _ =>
        match dut s !! pin_signal n with
        | None =>
            (Raise (AttributeError (pin_signal n)),
             with_trace s [GetHandle (en_signal n); DriveHdl (en_signal n) (0, 0)%Z 1;
                           GetHandle (pin_signal n)])
        | Some _ =>
            (Ok tt,
             with_trace s [GetHandle (en_signal n); DriveHdl (en_signal n) (0, 0)%Z 1;
                           GetHandle (pin_signal n); DriveHdl (pin_signal n) (0, 0)%Z v;
                           LogDebug ("[openframe] drive GPIO[" +:+ str_of_int n +:+ "] = "
                                     +:+ str_of_int v)])
        end
    end.
Proof.
  intros L. unfold drive_gpio. rewrite (guard_passed n L).
  fold (en_signal n). fold (pin_signal n).
  unfold bind at 1. rewrite dut_id_spec.
  destruct (dut s !! en_signal n) as [x|]; [|reflexivity].
  unfold bind at 1, drive_hdl at 1. rewrite emit_spec, with_trace_app.
  unfold bind at 1. rewrite dut_id_spec, with_trace_app.
  change (dut (with_trace s _)) with (dut s).
  destruct (dut s !! pin_signal n) as [y|]; [|reflexivity].
  unfold bind at 1, drive_hdl at 1. rewrite emit_spec, with_trace_app.
  rewrite emit_spec, with_trace_app. reflexivity.
Qed.

Lemma release_gpio_below (n : Z) (s : sim) :
  (n < active_gpios_num self)%Z ->
  release_gpio self n s =
    match dut s !! en_signal n with
    | None => (Raise (AttributeError (en_signal n)), with_trace s [GetHandle (en_signal n)])
    | Some _ =>
        (Ok tt,
         with_trace s [GetHandle (en_signal n); DriveHdl (en_signal n) (0, 0)%Z 0;
                       LogDebug ("[openframe] release GPIO[" +:+ str_of_int n +:+ "]")])
    end.
Proof.
  intros L. unfold release_gpio. rewrite (guard_passed n L).
  fold (en_signal n).
  unfold bind at 1. rewrite dut_id_spec.
  destruct (dut s !! en_signal n) as [x|]; [|reflexivity].
  unfold bind at 1, drive_hdl at 1. rewrite emit_spec, with_trace_app.
  rewrite emit_spec, with_trace_app. reflexivity.
Qed.

Lemma monitor_gpio_below (n : Z) (s : sim) :
  (n < active_gpios_num self)%Z ->
  monitor_gpio self n s =
    (match dut s !! monitor_signal n with
     | None => Raise (AttributeError (monitor_signal n))
     | Some val => Ok (if is_resolvable val then integer val else 0%Z)
     end, with_trace s [GetHandle (monitor_signal n)]).
Proof.
  intros L. unfold monitor_gpio. rewrite (guard_passed n L).
  fold (monitor_signal n).
  unfold bind at 1. rewrite dut_id_spec.
  destruct (dut s !! monitor_signal n) as [val|] eqn:E; [|reflexivity].
  unfold value_of, get, ret, with_trace, bind. cbn [dut]. now rewrite E.
Qed.

(** [drive_gpio] at or above the pin count. *)
Lemma drive_gpio_above (n v : Z) (s : sim) :
  (active_gpios_num self <= n)%Z ->
  drive_gpio self n v s
    = (Ok tt,
       with_trace s [LogError ("[openframe] GPIO " +:+ str_of_int n
                               +:+ " is out of range (max "
                               +:+ str_of_int (active_gpios_num self - 1) +:+ ")")]).
Proof.
  intros G. unfold drive_gpio. now rewrite (guard_taken n G).
Qed.

(** C8.  For an index at or above the active pin count, [drive_gpio] logs
    one error and does nothing else: no handle is fetched and no signal is
    driven, neither the pin nor its enable.  [monitor_gpio] logs one error
    and returns 0.  Both return; neither raises. *)
Theorem gpio_out_of_range (n v : Z) (s : sim) :
  (active_gpios_num self <= n)%Z ->
  drive_gpio self n v s
    = (Ok tt,
       with_trace s [LogError ("[openframe] GPIO " +:+ str_of_int n
                               +:+ " is out of range (max "
                               +:+ str_of_int (active_gpios_num self - 1) +:+ ")")])
  /\ monitor_gpio self n s
    = (Ok 0%Z,
       with_trace s [LogError ("[openframe] GPIO " +:+ str_of_int n
                               +:+ " is out of range")]).
Proof.
  intros G. split.
  - unfold drive_gpio. rewrite (guard_taken n G). apply emit_spec.
  - unfold monitor_gpio. rewrite (guard_taken n G).
    unfold bind. now rewrite emit_spec.
Qed.

(** C10.  The guard of [drive_gpio], [release_gpio] and [monitor_gpio] tests
    the upper bound only.  For a negative index (and a pin count that is not
    negative) it is not taken: no error is logged and no default is
    returned.  The operation fetches the handle of a signal whose name has
    the index with its minus sign in it, raises [AttributeError] when the
    testbench has no such signal, and drives or reads it when it has. *)
Theorem negative_index_passes_guard (n v : Z) (s : sim) :
  (n < 0)%Z ->
  (0 <= active_gpios_num self)%Z ->
  str_of_int n = "-" +:+ str_of_int (- n)
  /\ drive_gpio self n v s =
       match dut s !! en_signal n with
       | None =>
           (Raise (AttributeError (en_signal n)), with_trace s [GetHandle (en_signal n)])
       | Some _ =>
           match dut s !! pin_signal n with
           | None =>
               (Raise (AttributeError (pin_signal n)),
                with_trace s [GetHandle (en_signal n); DriveHdl (en_signal n) (0, 0)%Z 1;
                              GetHandle (pin_signal n)])
           | Some _ =>
               (Ok tt,
                with_trace s [GetHandle (en_signal n); DriveHdl (en_signal n) (0, 0)%Z 1;
                              GetHandle (pin_signal n); DriveHdl (pin_signal n) (0, 0)%Z v;
                              LogDebug ("[openframe] drive GPIO[" +:+ str_of_int n
                                        +:+ "] = " +:+ str_of_int v)])
           end
       end
  /\ release_gpio self n s =
       match dut s !! en_signal n with
       | None =>
           (Raise (AttributeError (en_signal n)), with_trace s [GetHandle (en_signal n)])
       | Some _ =>
           (Ok tt,
            with_trace s [GetHandle (en_signal n); DriveHdl (en_signal n) (0, 0)%Z 0;
                          LogDebug ("[openframe] release GPIO[" +:+ str_of_int n +:+ "]")])
       end
  /\ monitor_gpio self n s =
       (match dut s !! monitor_signal n with
        | None => Raise (AttributeError (monitor_signal n))
        | Some val => Ok (if is_resolvable val then integer val else 0%Z)
        end, with_trace s [GetHandle (monitor_signal n)]).
Proof.
  intros Hn Ha. assert (L : (n < active_gpios_num self)%Z) by lia.
  split; [now apply str_of_int_negative|].
  split; [now apply drive_gpio_below|].
  split; [now apply release_gpio_below | now apply monitor_gpio_below].
Qed.

(** The loop of [drive_gpio_range] over any list of indices. *)
Lemma drive_each (low value : Z) (idxs : list Z) :
  forall s : sim,
  (forall i, i ∈ idxs -> (i < active_gpios_num self)%Z ->
     is_Some (dut s !! en_signal i) /\ is_Some (dut s !! pin_signal i)) ->
  for_each idxs
    (fun i => drive_gpio self i (Z.land (Z.shiftr value (i - low)) 1)) s
  = (Ok tt,
     with_trace s
       (flat_map
          (fun i =>
             if (i >=? active_gpios_num self)%Z then
               [LogError ("[openframe] GPIO " +:+ str_of_int i
                          +:+ " is out of range (max "
                          +:+ str_of_int (active_gpios_num self - 1) +:+ ")")]
             else
               [GetHandle (en_signal i); DriveHdl (en_signal i) (0, 0)%Z 1;
                GetHandle (pin_signal i);
                DriveHdl (pin_signal i) (0, 0)%Z (Z.land (Z.shiftr value (i - low)) 1);
                LogDebug ("[openframe] drive GPIO[" +:+ str_of_int i +:+ "] = "
                          +:+ str_of_int (Z.land (Z.shiftr value (i - low)) 1))])
          idxs)).
Proof.
  induction idxs as [|i idxs IH]; intros s Hs.
  - simpl. now rewrite with_trace_nil.
  - cbn [for_each flat_map]. unfold bind at 1.
    destruct (Z_lt_ge_dec i (active_gpios_num self)) as [L|G].
    + rewrite (drive_gpio_below i _ s L), (guard_passed i L).
      destruct (Hs i) as [[x Hx] [y Hy]]; [left | exact L |].
      rewrite Hx, Hy. rewrite IH; [now rewrite with_trace_app|].
      intros j Hj Lj. apply Hs; [now right | exact Lj].
    + assert (G' : (active_gpios_num self <= i)%Z) by lia.
      rewrite (drive_gpio_above i _ s G'), (guard_taken i G').
      rewrite IH; [now rewrite with_trace_app|].
      intros j Hj Lj. apply Hs; [now right | exact Lj].
Qed.

(** C9, as the code has it.  [drive_gpio_range((high, low), value)] goes
    through the pins from [low] to [high] in rising order.  A pin [i] below
    the active pin count is driven: its enable with 1 and the pin with bit
    [(value >> (i - low)) & 1].  A pin at or above the active pin count is
    not driven; an error is logged for it.  (The testbench has the signals
    of the pins that are driven.) *)
Theorem drive_gpio_range_drives (high low value : Z) (s : sim) :
  (forall i, (low <= i <= high)%Z -> (i < active_gpios_num self)%Z ->
     is_Some (dut s !! en_signal i) /\ is_Some (dut s !! pin_signal i)) ->
  drive_gpio_range self (high, low) value s
  = (Ok tt,
     with_trace s
       (flat_map
          (fun i =>
             if (i >=? active_gpios_num self)%Z then
               [LogError ("[openframe] GPIO " +:+ str_of_int i
                          +:+ " is out of range (max "
                          +:+ str_of_int (active_gpios_num self - 1) +:+ ")")]
             else
               [GetHandle (en_signal i); DriveHdl (en_signal i) (0, 0)%Z 1;
                GetHandle (pin_signal i);
                DriveHdl (pin_signal i) (0, 0)%Z (Z.land (Z.shiftr value (i - low)) 1);
                LogDebug ("[openframe] drive GPIO[" +:+ str_of_int i +:+ "] = "
                          +:+ str_of_int (Z.land (Z.shiftr value (i - low)) 1))])
          (pins high low))).
Proof.
  intros Hs. unfold drive_gpio_range. apply drive_each.
  intros i Hi. apply Hs. unfold pins in Hi. apply elem_of_seqZ in Hi. lia.
Qed.

End GpioProofs.

Lemma gpio_out_of_range_witness :
  (OpenFrame.active_gpios_num Examples.openframe <= 44)%Z
  /\ fst (OpenFrame.drive_gpio Examples.openframe 44 1 Examples.testbench) = Ok tt
  /\ OpenFrame.trace (snd (OpenFrame.drive_gpio Examples.openframe 44 1 Examples.testbench))
     = [OpenFrame.LogError "[openframe] GPIO 44 is out of range (max 43)"]
  /\ fst (OpenFrame.monitor_gpio Examples.openframe 44 Examples.testbench) = Ok 0%Z.
Proof.
  assert (G : (OpenFrame.active_gpios_num Examples.openframe <= 44)%Z)
    by (vm_compute; discriminate).
  split; [exact G|].
  destruct (gpio_out_of_range Examples.openframe 44 1 Examples.testbench G) as [D Mn].
  rewrite D, Mn. repeat split; reflexivity.
Defined.

(** Pin -1 of a testbench that has no signal of that name. *)
Lemma negative_index_passes_guard_witness :
  OpenFrame.en_signal (-1) = "gpio-1_en"
  /\ OpenFrame.drive_gpio Examples.openframe (-1) 1 Examples.testbench
     = (Raise (AttributeError "gpio-1_en"),
        OpenFrame.with_trace Examples.testbench [OpenFrame.GetHandle "gpio-1_en"])
  /\ fst (OpenFrame.monitor_gpio Examples.openframe (-1) Examples.testbench)
     = Raise (AttributeError "gpio-1_monitor").
Proof.
  destruct (negative_index_passes_guard Examples.openframe (-1) 1 Examples.testbench)
    as (_ & D & _ & Mn); [lia | vm_compute; discriminate |].
  split; [reflexivity|]. rewrite D, Mn. split; reflexivity.
Defined.

(** The spec's C9 fails above the pin count: with 44 active pins the range
    (44, 43) with value 3 asks for pin 44 to be driven with bit 1, and pin
    43 is driven, but pin 44 is not: an error is logged for it. *)
Lemma drive_gpio_range_counterexample :
  (43 <= 44 <= 44)%Z
  /\ Z.land (Z.shiftr 3 (44 - 43)) 1 = 1%Z
  /\ OpenFrame.trace
       (snd (OpenFrame.drive_gpio_range Examples.openframe (44, 43)%Z 3 Examples.testbench))
     = [OpenFrame.GetHandle "gpio43_en"; OpenFrame.DriveHdl "gpio43_en" (0, 0)%Z 1;
        OpenFrame.GetHandle "gpio43"; OpenFrame.DriveHdl "gpio43" (0, 0)%Z 1;
        OpenFrame.LogDebug "[openframe] drive GPIO[43] = 1";
        OpenFrame.LogError "[openframe] GPIO 44 is out of range (max 43)"].
Proof. split; [lia|]. split; vm_compute; reflexivity. Qed.

(** The range (3, 0) with value 0b1010: pins 1 and 3 high, pins 0 and 2
    low. *)
Lemma drive_gpio_range_drives_witness :
  OpenFrame.drive_gpio_range Examples.openframe (3, 0)%Z 10 Examples.testbench
  = (Ok tt,
     OpenFrame.with_trace Examples.testbench
       [OpenFrame.GetHandle "gpio0_en"; OpenFrame.DriveHdl "gpio0_en" (0, 0)%Z 1;
        OpenFrame.GetHandle "gpio0"; OpenFrame.DriveHdl "gpio0" (0, 0)%Z 0;
        OpenFrame.LogDebug "[openframe] drive GPIO[0] = 0";
        OpenFrame.GetHandle "gpio1_en"; OpenFrame.DriveHdl "gpio1_en" (0, 0)%Z 1;
        OpenFrame.GetHandle "gpio1"; OpenFrame.DriveHdl "gpio1" (0, 0)%Z 1;
        OpenFrame.LogDebug "[openframe] drive GPIO[1] = 1";
        OpenFrame.GetHandle "gpio2_en"; OpenFrame.DriveHdl "gpio2_en" (0, 0)%Z 1;
        OpenFrame.GetHandle "gpio2"; OpenFrame.DriveHdl "gpio2" (0, 0)%Z 0;
        OpenFrame.LogDebug "[openframe] drive GPIO[2] = 0";
        OpenFrame.GetHandle "gpio3_en"; OpenFrame.DriveHdl "gpio3_en" (0, 0)%Z 1;
        OpenFrame.GetHandle "gpio3"; OpenFrame.DriveHdl "gpio3" (0, 0)%Z 1;
        OpenFrame.LogDebug "[openframe] drive GPIO[3] = 1"]).
Proof.
  rewrite (drive_gpio_range_drives Examples.openframe 3 0 10 Examples.testbench).
  - reflexivity.
  - intros i Hi _.
    assert (C : i = 0%Z \/ i = 1%Z \/ i = 2%Z \/ i = 3%Z) by lia.
    destruct C as [ -> | [ -> | [ -> | -> ] ] ]; split; eexists; vm_compute; reflexivity.
Defined.

(** * Further properties *)

(** ** The command runner, beyond the claims *)

Section RunnerMore.

Import RunTest Runner.





Import Further.







(** X4.  When the log file cannot be opened the run raises
    [PermissionError] at once: the child is never started, nothing is
    printed and no file changes. *)
Theorem unopenable_log_stops_the_run (sh : host) (cmd : tool) (f : string)
    (quiet : bool) (w : world) :
  files w !! f = Some Denied ->
  run_command_write_to_file sh cmd (Some f) quiet w = (Raise (PermissionError f), w).
Proof.
  intros D. unfold run_command_write_to_file, bind, Os.append. now rewrite D.
Qed.

End RunnerMore.




Lemma unopenable_log_stops_the_run_witness :
  let w := Examples.world_of (<["run.log" := Denied]> ∅) in
  files w !! "run.log" = Some Denied
  /\ RunTest.run_command_write_to_file (Examples.printing [Examples.line "hello"]) Vvp
       (Some "run.log") false w = (Raise (PermissionError "run.log"), w).
Proof.
  intros w. assert (D : files w !! "run.log" = Some Denied) by reflexivity.
  split; [exact D|]. now apply unopenable_log_stops_the_run.
Defined.

(** ** The netlist hash, beyond the claims *)

Section HashMore.

Context {alg : HashAlg}.
Import RunTest.

(** X5.  When files of the netlist are missing or cannot be opened, the
    outcome is that of the least of them in the order of Python's string
    comparison, whatever the order of the list: when [open] raises
    [FileNotFoundError] or [PermissionError] for it the error string names
    it, and when [open] raises another exception this exception is raised;
    every permutation of the list gives the same outcome. *)
Theorem error_names_least_unreadable (w : world) (netlist : list string) (p : string) :
  p ∈ netlist ->
  files w !! p = None \/ files w !! p = Some Denied ->
  exists q e,
    q ∈ netlist
    /\ (files w !! q = None \/ files w !! q = Some Denied)
    /\ (forall r, r ∈ netlist -> files w !! r = None \/ files w !! r = Some Denied ->
          String.le q r)
    /\ Os.read q w = (Raise e, w)
    /\ calculate_netlist_hash netlist w
       = (match e with
          | FileNotFoundError f => Ok ("File not found: " +:+ f)
          | PermissionError f => Ok ("Permission denied: " +:+ f)
          | _ => Raise e
          end, w)
    /\ (forall netlist', netlist ≡ₚ netlist' ->
          calculate_netlist_hash netlist' w = calculate_netlist_hash netlist w).
Proof.
  intros Hin Hp.
  destruct (hash_files_least (sorted netlist) w) with (h := hash_new)
    as (q & e & Hq & Uq & Hleast & Rq & Hf).
  { unfold sorted. apply StronglySorted_merge_sort; apply _. }
  { exists p. split; [now apply sorted_elem_of | exact Hp]. }
  exists q, e. split; [now apply (proj1 (sorted_elem_of _ _))|]. split; [exact Uq|].
  split; [intros r Hr Hu; apply Hleast; [now apply sorted_elem_of | exact Hu]|].
  split; [exact Rq|]. split.
  - rewrite calculate_of_hash_files, Hf. reflexivity.
  - intros netlist' Pm. unfold calculate_netlist_hash.
    now rewrite (sorted_Permutation netlist netlist' Pm).
Qed.

(** X7.  A hash log that is there and cannot be opened stops
    [is_same_hash] with [PermissionError] before anything is computed or
    written.  [write_hash] raises too and writes nothing: the
    [PermissionError] of the hash log when the hash of the netlist can be
    computed, and else the exception of the hash computation, which comes
    first. *)
Theorem unopenable_hash_log_raises (t : test) (w : world) (netlist : list string) :
  files w !! hash_log t = Some Denied ->
  is_same_hash t netlist w = (Raise (PermissionError (hash_log t)), w)
  /\ (forall digest, calculate_netlist_hash netlist w = (Ok digest, w) ->
        write_hash t netlist w = (Raise (PermissionError (hash_log t)), w))
  /\ (forall e, calculate_netlist_hash netlist w = (Raise e, w) ->
        write_hash t netlist w = (Raise e, w)).
Proof.
  intros D. split; [|split].
  - rewrite is_same_hash_spec. cbv zeta. rewrite read_text_spec.
    unfold Os.read. now rewrite D.
  - intros digest C. rewrite write_hash_spec, C. cbn [fst].
    unfold Os.write. now rewrite D.
  - intros e C. now rewrite write_hash_spec, C.
Qed.


Lemma take_drop (n : nat) (s : string) : Str.take n s +:+ Str.drop n s = s.
Proof.
  revert s. induction n as [|n IH]; intros [|c s]; try reflexivity.
  cbn [Str.take Str.drop]. now rewrite append_cons, IH.
Qed.

(** For an algorithm that hashes a stream ([update(a); update(b)] is
    [update(a + b)], and [update(b"")] changes nothing) the chunks of the
    read loop do not show. *)
Lemma read_loop_whole (fuel : nat) :
  (forall h a b, hash_update (hash_update h a) b = hash_update h (a +:+ b)) ->
  (forall h, hash_update h EmptyString = h) ->
  forall (rest : string) (h : hash_obj),
  String.length rest < fuel -> read_loop fuel rest h = hash_update h rest.
Proof.
  intros L1 L2. destruct CHUNK_succ as [k Hk].
  induction fuel as [|fuel IH]; intros rest h L; [lia|].
  cbn [read_loop]. rewrite Hk.
  destruct rest as [|c rest]; [now rewrite L2|].
  cbn [Str.take Str.is_empty Str.drop].
  rewrite IH.
  - rewrite L1, append_cons. now rewrite take_drop.
  - pose proof (length_drop_le k rest). simpl in L. lia.
Qed.

Lemma hash_files_concat (w : world) (paths : list string) :
  (forall h a b, hash_update (hash_update h a) b = hash_update h (a +:+ b)) ->
  (forall h, hash_update h EmptyString = h) ->
  (forall p, p ∈ paths -> exists c, files w !! p = Some (Regular c)) ->
  forall h : hash_obj,
  hash_files paths h w
  = (Ok (hash_update h
           (foldr (fun p acc => Runner.content_of (files w) p +:+ acc) EmptyString paths)),
     w).
Proof.
  intros L1 L2. induction paths as [|x xs IH]; intros R h.
  - simpl. unfold ret. now rewrite L2.
  - destruct (R x) as [c Hc]; [left|].
    cbn [hash_files foldr]. unfold bind, Os.read, Runner.content_of at 1.
    rewrite Hc. rewrite IH by (intros p Hp; apply R; now right).
    unfold update_from_file. rewrite (read_loop_whole _ L1 L2) by lia.
    now rewrite L1.
Qed.

(** X8.  For a streaming hash algorithm the digest is the digest of the
    contents of the files, in the sorted order of their paths, put end to
    end.  Where one file ends and the next begins does not enter the
    digest. *)
Theorem digest_of_concatenation (w : world) (netlist : list string) :
  (forall h a b, hash_update (hash_update h a) b = hash_update h (a +:+ b)) ->
  (forall h, hash_update h EmptyString = h) ->
  (forall p, p ∈ netlist -> exists c, files w !! p = Some (Regular c)) ->
  calculate_netlist_hash netlist w
  = (Ok (hexdigest
           (hash_update hash_new
              (foldr (fun p acc => Runner.content_of (files w) p +:+ acc) EmptyString
                 (sorted netlist)))),
     w).
Proof.
  intros L1 L2 R. unfold calculate_netlist_hash, try_except, bind.
  rewrite (hash_files_concat w (sorted netlist) L1 L2); [reflexivity|].
  intros p Hp. apply R. now apply (proj1 (sorted_elem_of _ _)).
Qed.

End HashMore.

Lemma error_names_least_unreadable_witness :
  exists q,
    q ∈ ["rtl/z.v"; "rtl/a.v"; "rtl/m.v"]
    /\ RunTest.calculate_netlist_hash (alg := Examples.dump_alg)
         ["rtl/z.v"; "rtl/a.v"; "rtl/m.v"] Examples.two_files
       = (Ok ("File not found: " +:+ q), Examples.two_files)
    /\ String.le q "rtl/z.v".
Proof.
  destruct (error_names_least_unreadable (alg := Examples.dump_alg) Examples.two_files
              ["rtl/z.v"; "rtl/a.v"; "rtl/m.v"] "rtl/z.v")
    as (q & e & Hq & Uq & Hleast & Rq & C & _); [left | left; reflexivity |].
  exists q. split; [exact Hq|]. split.
  - rewrite C. clear -Hq Rq.
    repeat (apply elem_of_cons in Hq as [->|Hq];
            [vm_compute in Rq; first [discriminate | injection Rq as <-; reflexivity]|]).
    inversion Hq.
  - apply Hleast; [left | left; reflexivity].
Defined.


(** Two netlists with the same bytes, cut at different places, have one
    digest. *)
Lemma digest_of_concatenation_witness :
  RunTest.calculate_netlist_hash (alg := Examples.dump_alg) ["rtl/a.v"; "rtl/b.v"]
    Further.cut_early
  = (Ok (Examples.hex_dump "module top; endmodule"), Further.cut_early)
  /\ RunTest.calculate_netlist_hash (alg := Examples.dump_alg) ["rtl/a.v"; "rtl/b.v"]
       Further.cut_late
     = (Ok (Examples.hex_dump "module top; endmodule"), Further.cut_late).
Proof.
  assert (L1 : forall h a b : string, (h +:+ a) +:+ b = h +:+ (a +:+ b))
    by (intros; apply append_assoc).
  assert (L2 : forall h : string, h +:+ EmptyString = h) by (intros; apply append_nil_r).
  split.
  - rewrite (digest_of_concatenation (alg := Examples.dump_alg) Further.cut_early
               ["rtl/a.v"; "rtl/b.v"] L1 L2); [reflexivity|].
    intros p Hp.
    repeat (apply elem_of_cons in Hp as [->|Hp]; [eexists; vm_compute; reflexivity|]).
    inversion Hp.
  - rewrite (digest_of_concatenation (alg := Examples.dump_alg) Further.cut_late
               ["rtl/a.v"; "rtl/b.v"] L1 L2); [reflexivity|].
    intros p Hp.
    repeat (apply elem_of_cons in Hp as [->|Hp]; [eexists; vm_compute; reflexivity|]).
    inversion Hp.
Defined.

Lemma unopenable_hash_log_raises_witness :
  files Examples.denied_log !! hash_log Examples.a_test = Some Denied
  /\ RunTest.is_same_hash (alg := Examples.dump_alg) Examples.a_test
       (netlist Examples.a_test) Examples.denied_log
     = (Raise (PermissionError (hash_log Examples.a_test)), Examples.denied_log).
Proof.
  assert (D : files Examples.denied_log !! hash_log Examples.a_test = Some Denied)
    by reflexivity.
  split; [exact D|].
  exact (proj1 (unopenable_hash_log_raises (alg := Examples.dump_alg) Examples.a_test
                  Examples.denied_log (netlist Examples.a_test) D)).
Defined.


(** ** The pins, beyond the claims *)

Section GpioMore.

Import OpenFrame.

Variable self : OpenFrame_env.

Lemma pins_empty (high low : Z) : (high < low)%Z -> pins high low = [].
Proof. intros L. unfold pins, seqZ. now replace (Z.to_nat (high + 1 - low)) with 0 by lia. Qed.

Lemma elem_of_pins (high low i : Z) : i ∈ pins high low <-> (low <= i <= high)%Z.
Proof. unfold pins. rewrite elem_of_seqZ. lia. Qed.

(** X9.  The range is given as (high, low).  With the bounds the other way
    round, [high < low], the three range operations go through no pin at
    all: nothing is driven, released or read, nothing is logged, and
    [monitor_gpio_range] returns 0. *)
Theorem reversed_range_does_nothing (high low value : Z) (s : sim) :
  (high < low)%Z ->
  drive_gpio_range self (high, low) value s = (Ok tt, s)
  /\ release_gpio_range self (high, low) s = (Ok tt, s)
  /\ monitor_gpio_range self (high, low) s = (Ok 0%Z, s).
Proof.
  intros L. unfold drive_gpio_range, release_gpio_range, monitor_gpio_range.
  rewrite (pins_empty high low L). repeat split.
Qed.

Lemma for_each_ext {St A : Type} (xs : list A) (f g : A -> M St unit) :
  (forall x, x ∈ xs -> f x = g x) -> for_each xs f = for_each xs g.
Proof.
  induction xs as [|x xs IH]; intros E; [reflexivity|].
  cbn [for_each]. rewrite (E x) by left. rewrite IH; [reflexivity|].
  intros y Hy. apply E. now right.
Qed.

Lemma bit_of_low_bits (value n j : Z) :
  (0 <= j < n)%Z ->
  Z.land (Z.shiftr (value mod 2 ^ n) j) 1 = Z.land (Z.shiftr value j) 1.
Proof.
  intros Hj. change 1%Z with (Z.ones 1).
  rewrite !Z.land_ones by lia. rewrite <- !Z.bit0_mod.
  rewrite !Z.shiftr_spec by lia. f_equal.
  apply Z.mod_pow2_bits_low. lia.
Qed.

(** X10.  [drive_gpio_range] uses the low [high - low + 1] bits of [value]
    and no other: two values that agree on these bits do the same to every
    pin.  (So -1 drives all the pins of the range to 1.) *)
Theorem drive_gpio_range_low_bits (high low value value' : Z) :
  (value mod 2 ^ (high + 1 - low) = value' mod 2 ^ (high + 1 - low))%Z ->
  drive_gpio_range self (high, low) value = drive_gpio_range self (high, low) value'.
Proof.
  intros E. unfold drive_gpio_range. apply for_each_ext.
  intros i Hi. apply elem_of_pins in Hi. f_equal.
  rewrite <- (bit_of_low_bits value (high + 1 - low)) by lia.
  rewrite <- (bit_of_low_bits value' (high + 1 - low)) by lia.
  now rewrite E.
Qed.

(** [monitor_gpio] when the testbench has the signal. *)
Lemma monitor_gpio_reading (i : Z) (s : sim) :
  ((i < active_gpios_num self)%Z -> is_Some (dut s !! monitor_signal i)) ->
  monitor_gpio self i s
  = (Ok (Further.pin_reading self s i), with_trace s (Further.monitor_actions self i)).
Proof.
  intros Hs. unfold Further.pin_reading, Further.monitor_actions.
  destruct (Z_lt_ge_dec i (active_gpios_num self)) as [L|G].
  - rewrite (monitor_gpio_below self i s L), (guard_passed self i L).
    destruct (Hs L) as [val ->]. reflexivity.
  - assert (G' : (active_gpios_num self <= i)%Z) by lia.
    unfold monitor_gpio. rewrite (guard_taken self i G').
    unfold bind. now rewrite emit_spec.
Qed.

Lemma pin_reading_with_trace (s : sim) (new : list action) (i : Z) :
  Further.pin_reading self (with_trace s new) i = Further.pin_reading self s i.
Proof. reflexivity. Qed.

(** The loop of [monitor_gpio_range] over any list of indices: the value
    and the trace. *)
Lemma monitor_loop_spec (low : Z) (idxs : list Z) :
  forall (acc : Z) (s : sim),
  (forall i, i ∈ idxs -> (i < active_gpios_num self)%Z ->
     is_Some (dut s !! monitor_signal i)) ->
  monitor_loop self low idxs acc s
  = (Ok (fold_left (fun v i => Z.lor v (Z.shiftl (Further.pin_reading self s i) (i - low)))
           idxs acc),
     with_trace s (flat_map (Further.monitor_actions self) idxs)).
Proof.
  induction idxs as [|i idxs IH]; intros acc s Hs.
  - simpl. now rewrite with_trace_nil.
  - cbn [monitor_loop fold_left flat_map]. unfold bind at 1.
    rewrite monitor_gpio_reading by (intros L; apply Hs; [left | exact L]).
    rewrite IH.
    + rewrite with_trace_app. reflexivity.
    + intros j Hj Lj. apply Hs; [now right | exact Lj].
Qed.

Lemma testbit_reading (b j : Z) :
  b = 0%Z \/ b = 1%Z -> Z.testbit b j = (b =? 1)%Z && (j =? 0)%Z.
Proof.
  intros [->| ->]; [now rewrite Z.bits_0|].
  destruct j as [|p|p]; reflexivity.
Qed.

Lemma testbit_fold (low : Z) (r : Z -> Z) (idxs : list Z) :
  (forall i, i ∈ idxs -> (low <= i)%Z /\ (r i = 0 \/ r i = 1)%Z) ->
  forall (acc k : Z), (0 <= k)%Z ->
  Z.testbit (fold_left (fun v i => Z.lor v (Z.shiftl (r i) (i - low))) idxs acc) k
  = Z.testbit acc k || existsb (fun i => (r i =? 1)%Z && (i =? low + k)%Z) idxs.
Proof.
  induction idxs as [|i idxs IH]; intros Hr acc k Hk.
  - simpl. now rewrite orb_false_r.
  - cbn [fold_left existsb]. rewrite IH by (auto; intros j Hj; apply Hr; now right).
    destruct (Hr i) as [Hl Hb]; [left|].
    rewrite Z.lor_spec, Z.shiftl_spec by lia.
    rewrite (testbit_reading (r i) (k - (i - low)) Hb).
    rewrite <- orb_assoc. do 3 f_equal.
    destruct (Z.eqb_spec (k - (i - low)) 0), (Z.eqb_spec i (low + k)); try reflexivity; lia.
Qed.

Lemma existsb_pins (high low k : Z) (f : Z -> bool) :
  (0 <= k)%Z ->
  existsb (fun i => f i && (i =? low + k)%Z) (pins high low)
  = (low + k <=? high)%Z && f (low + k)%Z.
Proof.
  intros Hk. apply eq_true_iff_eq. rewrite existsb_exists, andb_true_iff, Z.leb_le. split.
  - intros (i & Hi & E). apply andb_true_iff in E as [F E].
    apply Z.eqb_eq in E. subst i. apply list_elem_of_In, elem_of_pins in Hi. split; [lia | exact F].
  - intros [L F]. exists (low + k)%Z. split.
    + apply list_elem_of_In, elem_of_pins. lia.
    + now rewrite F, Z.eqb_refl.
Qed.

(** X11.  [monitor_gpio_range((high, low))] returns, when the testbench has
    the monitor signals of the pins below the pin count and they read 0, 1
    or an unresolved value, the number whose bit [k] is the reading of pin
    [low + k]: 1 when that pin is in the range, below the pin count, resolved
    and 1, and 0 otherwise, and in particular for every bit above the width
    of the range.  It fetches one handle for each pin below the pin count,
    logs one error for each pin above, and drives nothing. *)
Theorem monitor_gpio_range_bits (high low : Z) (s : sim) :
  (forall i, (low <= i <= high)%Z -> (i < active_gpios_num self)%Z ->
     exists val, dut s !! monitor_signal i = Some val
                 /\ (is_resolvable val = true -> integer val = 0 \/ integer val = 1)%Z) ->
  exists v : Z,
    monitor_gpio_range self (high, low) s
    = (Ok v, with_trace s (flat_map (Further.monitor_actions self) (pins high low)))
    /\ (0 <= v < 2 ^ Z.max 0 (high + 1 - low))%Z
    /\ (forall k, (0 <= k)%Z ->
          Z.testbit v k
          = (low + k <=? high)%Z && (Further.pin_reading self s (low + k) =? 1)%Z).
Proof.
  intros Hs. unfold monitor_gpio_range.
  rewrite monitor_loop_spec.
  2:{ intros i Hi Li. apply elem_of_pins in Hi.
      destruct (Hs i Hi Li) as (val & E & _). now exists val. }
  eexists. split; [reflexivity|].
  assert (R : forall i, i ∈ pins high low ->
                (low <= i)%Z
                /\ (Further.pin_reading self s i = 0
                    \/ Further.pin_reading self s i = 1)%Z).
  { intros i Hi. apply elem_of_pins in Hi. split; [lia|].
    unfold Further.pin_reading.
    destruct (Z_lt_ge_dec i (active_gpios_num self)) as [L|G].
    - rewrite (guard_passed self i L). destruct (Hs i Hi L) as (val & -> & B).
      destruct (is_resolvable val); [now apply B | now left].
    - rewrite (guard_taken self i) by lia. now left. }
  assert (B : forall k, (0 <= k)%Z ->
     Z.testbit (fold_left
        (fun v i => Z.lor v (Z.shiftl (Further.pin_reading self s i) (i - low)))
        (pins high low) 0%Z) k
     = (low + k <=? high)%Z && (Further.pin_reading self s (low + k) =? 1)%Z).
  { intros k Hk.
    rewrite (testbit_fold low (Further.pin_reading self s) (pins high low) R 0 k Hk).
    rewrite Z.bits_0. cbn [orb].
    apply (existsb_pins high low k (fun i => (Further.pin_reading self s i =? 1)%Z) Hk). }
  split; [|exact B].
  assert (N : (0 <= fold_left
        (fun v i => Z.lor v (Z.shiftl (Further.pin_reading self s i) (i - low)))
        (pins high low) 0)%Z).
  { apply Z.bits_iff_nonneg_ex. exists (Z.max 0 (high - low)).
    intros m Hm. rewrite B by lia.
    destruct (Z.leb_spec (low + m) high); [lia | reflexivity]. }
  apply Z.bounded_iff_bits_nonneg'; [lia | exact N |].
  intros m Hm. rewrite B by lia.
  destruct (Z.leb_spec (low + m) high); [lia | reflexivity].
Qed.

(** A loop whose body only adds to the trace only adds to the trace, and
    what it adds comes from the body at one of the elements. *)
Lemma for_each_trace (Q : Z -> action -> Prop) (body : Z -> M sim unit) (idxs : list Z) :
  (forall i s, i ∈ idxs ->
     exists new, snd (body i s) = with_trace s new /\ Forall (Q i) new) ->
  forall s : sim,
  exists new,
    snd (for_each idxs body s) = with_trace s new
    /\ Forall (fun a => exists i, i ∈ idxs /\ Q i a) new.
Proof.
  induction idxs as [|i idxs IH]; intros HB s.
  - exists []. split; [simpl; now rewrite with_trace_nil | constructor].
  - assert (Up : forall new, Forall (Q i) new ->
                   Forall (fun a => exists j, j ∈ i :: idxs /\ Q j a) new).
    { intros new F. eapply Forall_impl; [exact F|].
      intros a Ha. exists i. split; [left | exact Ha]. }
    cbn [for_each]. unfold bind.
    destruct (HB i s) as (n1 & E1 & F1); [left|].
    destruct (body i s) as [[[]|e] s1]; simpl in E1; subst s1.
    + destruct (IH (fun j s' Hj => HB j s' (proj2 (elem_of_cons _ _ _) (or_intror Hj)))
                  (with_trace s n1)) as (n2 & E2 & F2).
      exists (n1 ++ n2). rewrite E2, with_trace_app. split; [reflexivity|].
      apply Forall_app. split; [now apply Up|].
      eapply Forall_impl; [exact F2|].
      intros a (j & Hj & Qa). exists j. split; [now right | exact Qa].
    + exists n1. split; [reflexivity | now apply Up].
Qed.

(** What [release_gpio] drives is the enable of its pin, with 0. *)
Lemma release_gpio_trace (i : Z) (s : sim) :
  exists new,
    snd (release_gpio self i s) = with_trace s new
    /\ Forall (fun a => Further.is_drive a = true ->
                 (i < active_gpios_num self)%Z /\ a = DriveHdl (en_signal i) (0, 0)%Z 0)
         new.
Proof.
  destruct (Z_lt_ge_dec i (active_gpios_num self)) as [L|G].
  - rewrite (release_gpio_below self i s L).
    destruct (dut s !! en_signal i); eexists; (split; [reflexivity|]);
      rewrite ?Forall_cons, Forall_nil; cbn [Further.is_drive];
      intuition (try discriminate).
  - unfold release_gpio. rewrite (guard_taken self i) by lia. rewrite emit_spec.
    eexists. split; [reflexivity|].
    rewrite ?Forall_cons, Forall_nil; cbn [Further.is_drive]; intuition (try discriminate).
Qed.

(** What [drive_gpio] drives is the enable of its pin, with 1, and the pin,
    with the value it was given. *)
Lemma drive_gpio_trace (i v : Z) (s : sim) :
  exists new,
    snd (drive_gpio self i v s) = with_trace s new
    /\ Forall (fun a => Further.is_drive a = true ->
                 (i < active_gpios_num self)%Z
                 /\ (a = DriveHdl (en_signal i) (0, 0)%Z 1
                     \/ a = DriveHdl (pin_signal i) (0, 0)%Z v))
         new.
Proof.
  destruct (Z_lt_ge_dec i (active_gpios_num self)) as [L|G].
  - rewrite (drive_gpio_below self i v s L).
    destruct (dut s !! en_signal i); [destruct (dut s !! pin_signal i)|];
      eexists; (split; [reflexivity|]);
      rewrite ?Forall_cons, Forall_nil; cbn [Further.is_drive];
      intuition (try discriminate).
  - rewrite (drive_gpio_above self i v s) by lia.
    eexists. split; [reflexivity|].
    rewrite ?Forall_cons, Forall_nil; cbn [Further.is_drive]; intuition (try discriminate).
Qed.

(** [monitor_gpio] drives nothing. *)
Lemma monitor_gpio_trace (i : Z) (s : sim) :
  exists new,
    snd (monitor_gpio self i s) = with_trace s new
    /\ Forall (fun a => Further.is_drive a = false) new.
Proof.
  destruct (Z_lt_ge_dec i (active_gpios_num self)) as [L|G].
  - rewrite (monitor_gpio_below self i s L).
    eexists. split; [reflexivity|]. now repeat constructor.
  - unfold monitor_gpio. rewrite (guard_taken self i) by lia.
    unfold bind. rewrite emit_spec.
    eexists. split; [reflexivity|]. now repeat constructor.
Qed.

Lemma monitor_loop_trace (low : Z) (idxs : list Z) :
  forall (acc : Z) (s : sim),
  exists new,
    snd (monitor_loop self low idxs acc s) = with_trace s new
    /\ Forall (fun a => Further.is_drive a = false) new.
Proof.
  induction idxs as [|i idxs IH]; intros acc s.
  - exists []. split; [simpl; now rewrite with_trace_nil | constructor].
  - cbn [monitor_loop]. unfold bind.
    destruct (monitor_gpio_trace i s) as (n1 & E1 & F1).
    destruct (monitor_gpio self i s) as [[b|e] s1]; simpl in E1; subst s1.
    + destruct (IH (Z.lor acc (Z.shiftl b (i - low))) (with_trace s n1)) as (n2 & E2 & F2).
      exists (n1 ++ n2). rewrite E2, with_trace_app. split; [reflexivity|].
      apply Forall_app. now split.
    + exists n1. now split.
Qed.

(** X12.  The range operations stay inside their range, whatever the
    testbench has and whether they return or raise.  [drive_gpio_range]
    drives only signals of pins of the range below the pin count: an enable
    with 1, or a pin with 0 or 1, however large [value] is.
    [release_gpio_range] drives only enables of such pins, with 0, and never a
    pin.  [monitor_gpio_range] drives nothing. *)
Theorem range_operations_stay_in_range (high low value : Z) (s : sim) :
  (exists new,
     snd (drive_gpio_range self (high, low) value s) = with_trace s new
     /\ Forall (fun a => Further.is_drive a = true ->
                  exists i b, (low <= i <= high)%Z /\ (i < active_gpios_num self)%Z
                              /\ (b = 0 \/ b = 1)%Z
                              /\ (a = DriveHdl (en_signal i) (0, 0)%Z 1
                                  \/ a = DriveHdl (pin_signal i) (0, 0)%Z b))
          new)
  /\ (exists new,
        snd (release_gpio_range self (high, low) s) = with_trace s new
        /\ Forall (fun a => Further.is_drive a = true ->
                     exists i, (low <= i <= high)%Z /\ (i < active_gpios_num self)%Z
                               /\ a = DriveHdl (en_signal i) (0, 0)%Z 0)
             new)
  /\ (exists new,
        snd (monitor_gpio_range self (high, low) s) = with_trace s new
        /\ Forall (fun a => Further.is_drive a = false) new).
Proof.
  split; [|split].
  - unfold drive_gpio_range.
    destruct (for_each_trace
                (fun i a => Further.is_drive a = true ->
                   (i < active_gpios_num self)%Z
                   /\ (a = DriveHdl (en_signal i) (0, 0)%Z 1
                       \/ a = DriveHdl (pin_signal i) (0, 0)%Z
                                (Z.land (Z.shiftr value (i - low)) 1)))
                (fun i => drive_gpio self i (Z.land (Z.shiftr value (i - low)) 1))
                (pins high low)) with (s := s) as (new & E & F).
    { intros i s' _. apply drive_gpio_trace. }
    exists new. split; [exact E|].
    eapply Forall_impl; [exact F|].
    intros a (i & Hi & Ha) D. apply elem_of_pins in Hi.
    destruct (Ha D) as [L C].
    exists i, (Z.land (Z.shiftr value (i - low)) 1).
    split; [lia|]. split; [exact L|]. split; [|exact C].
    assert (B : forall x, (Z.land x 1 = 0 \/ Z.land x 1 = 1)%Z).
    { intros x. change 1%Z with (Z.ones 1) at 1 2. rewrite !Z.land_ones by lia.
      pose proof (Z.mod_pos_bound x (2 ^ 1)). lia. }
    apply B.
  - unfold release_gpio_range.
    destruct (for_each_trace
                (fun i a => Further.is_drive a = true ->
                   (i < active_gpios_num self)%Z /\ a = DriveHdl (en_signal i) (0, 0)%Z 0)
                (fun i => release_gpio self i) (pins high low)) with (s := s)
      as (new & E & F).
    { intros i s' _. apply release_gpio_trace. }
    exists new. split; [exact E|].
    eapply Forall_impl; [exact F|].
    intros a (i & Hi & Ha) D. apply elem_of_pins in Hi.
    destruct (Ha D) as [L C]. exists i. split; [lia | split; [exact L | exact C]].
  - unfold monitor_gpio_range. apply monitor_loop_trace.
Qed.

End GpioMore.

(** The bounds the wrong way round: (0, 7) for pins 0 to 7. *)
Lemma reversed_range_does_nothing_witness :
  (0 < 7)%Z
  /\ OpenFrame.drive_gpio_range Examples.openframe (0, 7)%Z 255 Examples.testbench
     = (Ok tt, Examples.testbench)
  /\ OpenFrame.monitor_gpio_range Examples.openframe (0, 7)%Z Examples.testbench
     = (Ok 0%Z, Examples.testbench).
Proof.
  assert (L : (0 < 7)%Z) by lia. split; [exact L|].
  destruct (reversed_range_does_nothing Examples.openframe 0 7 255 Examples.testbench L)
    as (D & _ & Mn).
  split; [exact D | exact Mn].
Defined.

(** On four pins -1 is 15. *)
Lemma drive_gpio_range_low_bits_witness :
  ((-1) mod 2 ^ (3 + 1 - 0) = 15 mod 2 ^ (3 + 1 - 0))%Z
  /\ OpenFrame.drive_gpio_range Examples.openframe (3, 0)%Z (-1)
     = OpenFrame.drive_gpio_range Examples.openframe (3, 0)%Z 15.
Proof.
  assert (E : ((-1) mod 2 ^ (3 + 1 - 0) = 15 mod 2 ^ (3 + 1 - 0))%Z) by reflexivity.
  split; [exact E|].
  exact (drive_gpio_range_low_bits Examples.openframe 3 0 (-1) 15 E).
Defined.

(** Pins 0 to 3 reading 1, X, 1, 0: bit 0 and bit 2 are set, bit 1 (the
    unresolved pin) and bit 3 are not. *)
Lemma monitor_gpio_range_bits_witness :
  exists v : Z,
    fst (OpenFrame.monitor_gpio_range Examples.openframe (3, 0)%Z Further.reading_bench)
    = Ok v
    /\ Z.testbit v 0 = true /\ Z.testbit v 1 = false
    /\ Z.testbit v 2 = true /\ Z.testbit v 3 = false.
Proof.
  destruct (monitor_gpio_range_bits Examples.openframe 3 0 Further.reading_bench)
    as (v & E & _ & B).
  - intros i Hi _.
    assert (C : i = 0%Z \/ i = 1%Z \/ i = 2%Z \/ i = 3%Z) by lia.
    destruct C as [ -> | [ -> | [ -> | -> ] ] ];
      (eexists; split; [vm_compute; reflexivity | intros _; vm_compute; auto]).
  - exists v. rewrite E. split; [reflexivity|].
    rewrite (B 0%Z), (B 1%Z), (B 2%Z), (B 3%Z) by lia.
    repeat split; vm_compute; reflexivity.
Defined.

(** ** The two tracks, beyond the claims *)

Section Tracks.

Context {alg : HashAlg} (sh : host).
Import RunTest.

Lemma quiet_ret {A : Type} (a : A) : Further.quiet (ret (St := world) a).
Proof. intros w. split; reflexivity. Qed.

Lemma quiet_raise {A : Type} (e : exn) : Further.quiet (raise (St := world) (A := A) e).
Proof. intros w. split; reflexivity. Qed.

Lemma quiet_bind {A B : Type} (m : M world A) (k : A -> M world B) :
  Further.quiet m -> (forall a, Further.quiet (k a)) -> Further.quiet (bind m k).
Proof.
  intros Hm Hk w. unfold bind. destruct (Hm w) as [L V].
  destruct (m w) as [[a|e] w1]; simpl in *; [|now split].
  destruct (Hk a w1) as [L1 V1]. split; congruence.
Qed.

Lemma quiet_try {A : Type} (m : M world A) (h : exn -> M world A) :
  Further.quiet m -> (forall e, Further.quiet (h e)) -> Further.quiet (try_except m h).
Proof.
  intros Hm Hh w. unfold try_except. destruct (Hm w) as [L V].
  destruct (m w) as [[a|e] w1]; simpl in *; [now split|].
  destruct (Hh e w1) as [L1 V1]. split; congruence.
Qed.

Lemma quiet_read (path : string) : Further.quiet (Os.read path).
Proof. intros w. now rewrite read_world. Qed.

Lemma quiet_write (path text : string) : Further.quiet (Os.write path text).
Proof.
  intros w. destruct (write_cases path text w) as [E|[e E]]; rewrite E; now split.
Qed.

Lemma quiet_append (path text : string) : Further.quiet (Os.append path text).
Proof.
  intros w. unfold Os.append. destruct (files w !! path) as [[c|]|]; now split.
Qed.

Lemma quiet_print (line : string) : Further.quiet (Os.print line).
Proof. intros w. now split. Qed.

Lemma quiet_remove (path : string) : Further.quiet (Os.remove path).
Proof. intros w. now split. Qed.

Lemma quiet_calculate (netlist : list string) :
  Further.quiet (calculate_netlist_hash netlist).
Proof. intros w. now rewrite calculate_world. Qed.

Lemma quiet_write_hash (t : test) (netlist : list string) :
  Further.quiet (write_hash t netlist).
Proof.
  unfold write_hash. apply quiet_bind; [apply quiet_calculate | intros d].
  apply quiet_bind; [apply quiet_write | intros _; apply quiet_ret].
Qed.

Lemma quiet_is_same_hash (t : test) (netlist : list string) :
  Further.quiet (is_same_hash t netlist).
Proof.
  unfold is_same_hash. apply quiet_bind.
  - apply quiet_try.
    + unfold Os.read_text. apply quiet_bind; [|intros c; apply quiet_ret].
      apply quiet_bind; [apply quiet_read | intros c; apply quiet_ret].
    + intros e. destruct e; first [apply quiet_ret | apply quiet_raise].
  - intros old. apply quiet_bind; [apply quiet_write_hash | intros d; apply quiet_ret].
Qed.

Lemma quiet_flush_buffer (b : option string) : Further.quiet (flush_buffer b).
Proof.
  destruct b as [l|]; simpl; [|apply quiet_ret].
  apply quiet_bind; [apply quiet_print | intros _; apply quiet_ret].
Qed.

Lemma quiet_handle_line (file : option string) (quiet : bool) (b : option string)
    (out : string) :
  Further.quiet (handle_line file quiet b out).
Proof.
  unfold handle_line. destruct (Str.is_empty out); [apply quiet_ret|].
  apply quiet_bind.
  - destruct file as [f|]; [|apply quiet_ret].
    destruct (negb _); [apply quiet_append | apply quiet_ret].
  - intros _. destruct (negb quiet && _); [|apply quiet_ret].
    destruct (negb _); [|apply quiet_ret].
    destruct (is_progressive_duplicate _ _).
    + destruct (Nat.ltb _ _); apply quiet_ret.
    + apply quiet_bind; [apply quiet_flush_buffer | intros _; apply quiet_ret].
Qed.

Lemma quiet_read_lines (file : option string) (quiet : bool) (lines : list string) :
  forall b : option string, Further.quiet (read_lines file quiet b lines).
Proof.
  induction lines as [|out lines IH]; intros b; simpl; [apply quiet_ret|].
  apply quiet_bind; [apply quiet_handle_line | intros b'; apply IH].
Qed.

Lemma starts_quiet {A : Type} (m : M world A) : Further.quiet m -> Further.starts [] m.
Proof.
  intros Q w a w' E. destruct (Q w) as [L V]. rewrite E in L, V. simpl in L, V.
  now rewrite app_nil_r.
Qed.

Lemma starts_bind {A B : Type} (e1 e2 : list event) (m : M world A) (k : A -> M world B) :
  Further.starts e1 m -> (forall a, Further.starts e2 (k a)) ->
  Further.starts (e1 ++ e2) (bind m k).
Proof.
  intros Hm Hk w b w' E. unfold bind in E.
  destruct (m w) as [[a|e] w1] eqn:E1; [|discriminate].
  destruct (Hm w a w1 E1) as [L1 V1]. destruct (Hk a w1 b w' E) as [L2 V2].
  split; [congruence | now rewrite V2, V1, app_assoc].
Qed.

Lemma starts_get {B : Type} (ev : list event) (k : world -> M world B) :
  (forall w0, Further.starts ev (k w0)) -> Further.starts ev (bind get k).
Proof. intros Hk w b w' E. rewrite bind_get in E. exact (Hk w w b w' E). Qed.

Lemma starts_Popen (cmd : tool) : Further.starts [Spawned cmd] (Popen sh cmd).
Proof.
  intros w proc w' E. unfold Popen in E.
  destruct (popen sh cmd (files w)) as [p fs]. injection E as _ <-. now split.
Qed.

(** A command runner that returns has started its command once. *)
Lemma starts_run_command (cmd : tool) (file : option string) (quiet : bool) :
  Further.starts [Spawned cmd] (run_command_write_to_file sh cmd file quiet).
Proof.
  unfold run_command_write_to_file. apply (starts_bind [] [Spawned cmd]).
  - apply starts_quiet. destruct file as [f|]; [|apply quiet_ret].
    apply quiet_bind; [apply quiet_append | intros _].
    apply quiet_bind; [apply quiet_append | intros _; apply quiet_append].
  - intros _. apply (starts_bind [Spawned cmd] []); [apply starts_Popen | intros proc].
    apply starts_quiet. apply quiet_bind; [|intros _; apply quiet_ret].
    apply quiet_try; [|intros e; apply quiet_ret].
    apply quiet_bind; [apply quiet_read_lines | intros b].
    apply quiet_bind; [apply quiet_flush_buffer | intros _; apply quiet_ret].
Qed.

Lemma starts_iverilog_compile (a : args) (t : test) :
  Further.starts [Spawned Iverilog] (iverilog_compile sh a t).
Proof.
  unfold iverilog_compile. apply starts_get. intros w0.
  apply (starts_bind [] [Spawned Iverilog]).
  - apply starts_quiet. destruct (Os.isfile _ _); [apply quiet_remove | apply quiet_ret].
  - intros _. apply (starts_bind [Spawned Iverilog] []);
      [apply starts_run_command | intros _; apply starts_quiet, quiet_ret].
Qed.

Lemma starts_iverilog_run (a : args) (t : test) :
  Further.starts [Spawned Vvp] (iverilog_run sh a t).
Proof.
  unfold iverilog_run.
  apply (starts_bind [Spawned Vvp] []);
    [apply starts_run_command | intros _; apply starts_quiet, quiet_ret].
Qed.

Lemma starts_vcs_compile (a : args) (t : test) :
  Further.starts [Spawned Vlogan; Spawned Vcs] (vcs_compile sh a t).
Proof.
  unfold vcs_compile. apply starts_get. intros w0.
  apply (starts_bind [] [Spawned Vlogan; Spawned Vcs]).
  - apply starts_quiet. destruct (Os.isfile _ _); [apply quiet_remove | apply quiet_ret].
  - intros _. apply (starts_bind [Spawned Vlogan] [Spawned Vcs]);
      [apply starts_run_command | intros _].
    apply (starts_bind [Spawned Vcs] []);
      [apply starts_run_command | intros _; apply starts_quiet, quiet_ret].
Qed.

Lemma starts_vcs_run (a : args) (t : test) :
  Further.starts [Spawned Simv] (vcs_run sh a t).
Proof.
  unfold vcs_run.
  apply (starts_bind [Spawned Simv] []);
    [apply starts_run_command | intros _; apply starts_quiet, quiet_ret].
Qed.

(** The body the two tracks share: which artifact, how to compile, how to
    run, and the four messages. *)
Lemma track_returned (art : string) (C R : M world unit) (cev rev : list event)
    (m1 m2 m3 m4 : string) (a : args) (t : test) (w w' : world) :
  Further.starts cev C -> Further.starts rev R ->
  ((if negb (Os.isfile (files w) art) then
      Os.print m1 ;;; C ;;; let* _ := write_hash t (netlist t) in ret tt
    else if compile a then
      Os.print m2 ;;; C ;;; let* _ := write_hash t (netlist t) in ret tt
    else
      let* same := is_same_hash t (netlist t) in
      let* w1 := get in
      if negb same && negb (bool_decide (art ∈ COMPILE_LOCK w1)) then
        Os.print m3 ;;; C
      else
        if negb (bool_decide (art ∈ COMPILE_LOCK w1)) then Os.print m4 else ret tt) ;;;
   lock art ;;;
   if negb (compile_only a) then R else ret tt) w
  = (Ok tt, w') ->
  COMPILE_LOCK w' = COMPILE_LOCK w ∪ {[art]}
  /\ events w' = events w
                 ++ (if Further.must_compile art a t w then cev else [])
                 ++ (if compile_only a then [] else rev).
Proof.
  intros HC HR E. unfold bind at 1 in E.
  match type of E with
  | (let (o, s') := ?B w in _) = _ => destruct (B w) as [[[]|e] w1] eqn:EB
  end; [|discriminate].
  assert (H1 : COMPILE_LOCK w1 = COMPILE_LOCK w
               /\ events w1 = events w ++ (if Further.must_compile art a t w then cev else [])).
  { assert (Full : forall m, Further.starts ([] ++ cev ++ [] ++ [])
               (Os.print m ;;; C ;;; let* _ := write_hash t (netlist t) in ret tt)).
    { intros m. apply starts_bind; [apply starts_quiet, quiet_print | intros _].
      apply starts_bind; [exact HC | intros _].
      apply starts_bind; [apply starts_quiet, quiet_write_hash
                         | intros _; apply starts_quiet, quiet_ret]. }
    unfold Further.must_compile.
    destruct (Os.isfile (files w) art); cbn [negb orb] in *.
    2:{ destruct (Full m1 w tt w1 EB) as [L V]. simpl in V. now rewrite app_nil_r in V. }
    destruct (compile a); cbn [orb] in *.
    { destruct (Full m2 w tt w1 EB) as [L V]. simpl in V. now rewrite app_nil_r in V. }
    unfold bind at 1 in EB.
    destruct (is_same_hash t (netlist t) w) as [[same|e] w2] eqn:ES; [|discriminate].
    destruct (quiet_is_same_hash t (netlist t) w) as [L2 V2].
    rewrite ES in L2, V2. simpl in L2, V2.
    assert (A : Further.answers_same t w = same)
      by (unfold Further.answers_same; now rewrite ES).
    rewrite A. rewrite bind_get in EB. cbv beta in EB. rewrite L2 in EB.
    destruct (negb same && negb (bool_decide (art ∈ COMPILE_LOCK w))).
    - assert (Part : Further.starts ([] ++ cev) (Os.print m3 ;;; C))
        by (apply starts_bind; [apply starts_quiet, quiet_print | intros _; exact HC]).
      destruct (Part w2 tt w1 EB) as [L V]. simpl in V.
      split; [now rewrite L, L2 | now rewrite V, V2].
    - assert (Part : Further.starts []
                (if negb (bool_decide (art ∈ COMPILE_LOCK w)) then Os.print m4 else ret tt))
        by (destruct (negb _); apply starts_quiet; [apply quiet_print | apply quiet_ret]).
      destruct (Part w2 tt w1 EB) as [L V]. rewrite app_nil_r in V.
      split; [now rewrite L, L2 | now rewrite V, V2, app_nil_r]. }
  destruct H1 as [L1 V1].
  unfold bind at 1, lock at 1, modify at 1 in E.
  assert (Tail : Further.starts (if compile_only a then [] else rev)
                   (if negb (compile_only a) then R else ret tt))
    by (destruct (compile_only a); [apply starts_quiet, quiet_ret | exact HR]).
  destruct (Tail _ tt w' E) as [L3 V3]. simpl in L3, V3. split.
  - now rewrite L3, L1.
  - now rewrite V3, V1, app_assoc.
Qed.

(** X13.  Whenever a run of the icarus track returns, the processes it has
    started are these, in this order: the compiler, exactly when the
    artifact was not there, or the compile flag is set, or [is_same_hash]
    did not answer "same" and the artifact was not locked; then the
    simulation, unless [compile_only] is set, whatever the compiler made of
    its job (its exit code is not looked at).  And the artifact is in the
    compile lock afterwards. *)
Theorem runTest_iverilog_events (a : args) (t : test) (w w' : world) :
  runTest_iverilog sh a t w = (Ok tt, w') ->
  COMPILE_LOCK w' = COMPILE_LOCK w ∪ {[sim_vvp t]}
  /\ events w' = events w
                 ++ (if Further.must_compile (sim_vvp t) a t w
                     then [Spawned Iverilog] else [])
                 ++ (if compile_only a then [] else [Spawned Vvp]).
Proof.
  unfold runTest_iverilog. destruct (String.eqb (sim t) "GL_SDF"); [discriminate|].
  rewrite bind_get. cbv beta. intros E.
  exact (track_returned (sim_vvp t) (iverilog_compile sh a t) (iverilog_run sh a t)
           [Spawned Iverilog] [Spawned Vvp] _ _ _ _ a t w w'
           (starts_iverilog_compile a t) (starts_iverilog_run a t) E).
Qed.

(** X14.  Whenever a run of the VCS track returns, the processes it has
    started are these, in this order: when it compiled, [vlogan] and then
    [vcs], the second also when the first failed; then [simv], unless
    [compile_only] is set.  The condition to compile is that of the icarus
    track with [simv] as the artifact, and [simv] is in the compile lock
    afterwards. *)
Theorem runTest_vcs_events (a : args) (t : test) (w w' : world) :
  runTest_vcs sh a t w = (Ok tt, w') ->
  COMPILE_LOCK w' = COMPILE_LOCK w ∪ {[simv t]}
  /\ events w' = events w
                 ++ (if Further.must_compile (simv t) a t w
                     then [Spawned Vlogan; Spawned Vcs] else [])
                 ++ (if compile_only a then [] else [Spawned Simv]).
Proof.
  unfold runTest_vcs. rewrite bind_get. cbv beta. intros E.
  exact (track_returned (simv t) (vcs_compile sh a t) (vcs_run sh a t)
           [Spawned Vlogan; Spawned Vcs] [Spawned Simv] _ _ _ _ a t w w'
           (starts_vcs_compile a t) (starts_vcs_run a t) E).
Qed.

(** A run that returns went through the lock. *)
Lemma returning_run_locks (art : string) (B R : M world unit) (w : world) :
  keeps_locked art (fun _ => True) R ->
  fst ((B ;;; lock art ;;; R) w) = Ok tt ->
  art ∈ COMPILE_LOCK (snd ((B ;;; lock art ;;; R) w)).
Proof.
  intros HR. unfold bind. destruct (B w) as [[[]|e] w1]; [|discriminate].
  intros _. unfold lock, modify. cbv beta iota.
  apply HR. simpl. set_solver.
Qed.

Lemma runTest_iverilog_returns_locked (a : args) (t : test) (w : world) :
  fst (runTest_iverilog sh a t w) = Ok tt ->
  sim_vvp t ∈ COMPILE_LOCK (snd (runTest_iverilog sh a t w)).
Proof.
  unfold runTest_iverilog. destruct (String.eqb (sim t) "GL_SDF"); [discriminate|].
  rewrite bind_get. cbv beta. apply returning_run_locks.
  destruct (negb (compile_only a)); [now apply kl_iverilog_run | apply kl_ret].
Qed.

Lemma runTest_vcs_returns_locked (a : args) (t : test) (w : world) :
  fst (runTest_vcs sh a t w) = Ok tt ->
  simv t ∈ COMPILE_LOCK (snd (runTest_vcs sh a t w)).
Proof.
  unfold runTest_vcs. rewrite bind_get. cbv beta. apply returning_run_locks.
  destruct (negb (compile_only a)); [now apply kl_vcs_run | apply kl_ret].
Qed.

(** X15.  One compilation for a session.  After a run that returned, a
    later run of a test with the same compilation directory and without the
    compile flag starts no compiler when it finds the artifact on disk,
    even if the netlist has changed in between: the first run has locked
    the artifact, and runs in between keep it locked.  This holds for both
    tracks, whatever the files are and whatever the children do. *)
Theorem returned_run_compiles_for_the_session (a1 a2 : args) (t1 t2 : test) (w : world) :
  compilation_dir t2 = compilation_dir t1 ->
  compile a2 = false ->
  (fst (runTest_iverilog sh a1 t1 w) = Ok tt ->
   forall w1 : world,
     (forall x, x ∈ COMPILE_LOCK (snd (runTest_iverilog sh a1 t1 w)) -> x ∈ COMPILE_LOCK w1) ->
     Os.isfile (files w1) (sim_vvp t2) = true ->
     exists new, events (snd (runTest_iverilog sh a2 t2 w1)) = events w1 ++ new
                 /\ Forall (fun e => e = Spawned Vvp) new)
  /\ (fst (runTest_vcs sh a1 t1 w) = Ok tt ->
      forall w1 : world,
        (forall x, x ∈ COMPILE_LOCK (snd (runTest_vcs sh a1 t1 w)) -> x ∈ COMPILE_LOCK w1) ->
        Os.isfile (files w1) (simv t2) = true ->
        exists new, events (snd (runTest_vcs sh a2 t2 w1)) = events w1 ++ new
                    /\ Forall (fun e => e = Spawned Simv) new).
Proof.
  intros D Hc. split.
  - intros Ret w1 Sub Hf.
    assert (Hx : sim_vvp t2 ∈ COMPILE_LOCK w1).
    { apply Sub. unfold sim_vvp. rewrite D. now apply runTest_iverilog_returns_locked. }
    destruct (runTest_iverilog_locked sh a2 t2 w1 Hc Hx Hf) as (_ & new & E & S).
    exists new. split; [exact E | now apply spawned_only_eq].
  - intros Ret w1 Sub Hf.
    assert (Hx : simv t2 ∈ COMPILE_LOCK w1).
    { apply Sub. unfold simv. rewrite D. now apply runTest_vcs_returns_locked. }
    destruct (runTest_vcs_locked sh a2 t2 w1 Hc Hx Hf) as (_ & new & E & S).
    exists new. split; [exact E | now apply spawned_only_eq].
Qed.

End Tracks.

(** No artifact, and a compiler that fails: the simulation is started all
    the same and the run returns. *)
Lemma runTest_iverilog_events_witness :
  exists w',
    RunTest.runTest_iverilog (alg := Examples.dump_alg) Further.failing
      Examples.normal_args Examples.a_test Examples.two_files = (Ok tt, w')
    /\ RunTest.sim_vvp Examples.a_test ∈ COMPILE_LOCK w'
    /\ events w' = [Spawned Iverilog; Spawned Vvp].
Proof.
  eexists. split; [vm_compute; reflexivity|].
  match goal with
  | |- _ ∈ COMPILE_LOCK ?w' /\ _ =>
      destruct (runTest_iverilog_events (alg := Examples.dump_alg) Further.failing
                  Examples.normal_args Examples.a_test Examples.two_files w') as [L V];
        [vm_compute; reflexivity|]
  end.
  split; [rewrite L; set_solver|].
  rewrite V. vm_compute. reflexivity.
Defined.

Lemma runTest_vcs_events_witness :
  exists w',
    RunTest.runTest_vcs (alg := Examples.dump_alg) Further.failing
      Examples.normal_args Examples.a_test Examples.two_files = (Ok tt, w')
    /\ RunTest.simv Examples.a_test ∈ COMPILE_LOCK w'
    /\ events w' = [Spawned Vlogan; Spawned Vcs; Spawned Simv].
Proof.
  eexists. split; [vm_compute; reflexivity|].
  match goal with
  | |- _ ∈ COMPILE_LOCK ?w' /\ _ =>
      destruct (runTest_vcs_events (alg := Examples.dump_alg) Further.failing
                  Examples.normal_args Examples.a_test Examples.two_files w') as [L V];
        [vm_compute; reflexivity|]
  end.
  split; [rewrite L; set_solver|].
  rewrite V. vm_compute. reflexivity.
Defined.

Lemma lock_set_files (f : gmap string node -> gmap string node) (w : world) :
  COMPILE_LOCK (set_files f w) = COMPILE_LOCK w.
Proof. reflexivity. Qed.

(** A first run compiles; the netlist changes; the second run only
    simulates. *)
Lemma returned_run_compiles_for_the_session_witness :
  let art := RunTest.sim_vvp Examples.a_test in
  let run := RunTest.runTest_iverilog (alg := Examples.dump_alg) (Examples.compiling art)
               Examples.normal_args Examples.a_test in
  let w1 := set_files (insert "rtl/a.v" (Regular "module a2; endmodule"))
              (snd (run Examples.two_files)) in
  fst (run Examples.two_files) = Ok tt
  /\ events w1 = [Spawned Iverilog; Spawned Vvp]
  /\ Os.isfile (files w1) art = true
  /\ exists new, events (snd (run w1)) = events w1 ++ new
                 /\ Forall (fun e => e = Spawned Vvp) new.
Proof.
  cbv zeta.
  assert (Ret : fst (RunTest.runTest_iverilog (alg := Examples.dump_alg)
                       (Examples.compiling (RunTest.sim_vvp Examples.a_test))
                       Examples.normal_args Examples.a_test Examples.two_files) = Ok tt)
    by (vm_compute; reflexivity).
  split; [exact Ret|]. split; [vm_compute; reflexivity|].
  split; [vm_compute; reflexivity|].
  refine (proj1 (returned_run_compiles_for_the_session (alg := Examples.dump_alg)
                  (Examples.compiling (RunTest.sim_vvp Examples.a_test))
                  Examples.normal_args Examples.normal_args
                  Examples.a_test Examples.a_test Examples.two_files eq_refl eq_refl)
           Ret _ _ _).
  - intros x H. rewrite lock_set_files. exact H.
  - vm_compute. reflexivity.
Defined.

(** ** Noise, by what a line contains *)

Section Keywords.

Import RunTest Runner.

Lemma matches_nil_nullable (r : Re.regex) (s : string) :
  Further.matches r s -> s = EmptyString -> Re.nullable r = true.
Proof.
  induction 1 as [|p c Hp|r s x y Hx IHx Hy IHy|r s x Hx IHx|r s x Hx IHx|r|r x y Hx IHx Hy IHy];
    intros E; simpl; try reflexivity.
  - discriminate.
  - destruct x; [|discriminate]. simpl in E. now rewrite IHx, IHy.
  - now rewrite IHx.
  - rewrite IHx by exact E. apply orb_true_r.
Qed.

Lemma matches_never (s : string) : ~ Further.matches Re.Never s.
Proof. intros H. inversion H. Qed.

Lemma matches_smart_cat (r s : Re.regex) (x y : string) :
  Further.matches r x -> Further.matches s y -> Further.matches (Re.cat r s) (x +:+ y).
Proof.
  intros Hx Hy.
  destruct r; try (now apply matches_never in Hx);
    destruct s; try (now apply matches_never in Hy);
    simpl; try (now apply Further.matches_cat);
    inversion Hx; subst; exact Hy.
Qed.

Lemma matches_smart_alt_l (r s : Re.regex) (x : string) :
  Further.matches r x -> Further.matches (Re.alt r s) x.
Proof.
  intros Hx.
  destruct r; try (now apply matches_never in Hx);
    destruct s; simpl; try exact Hx; now apply Further.matches_alt_l.
Qed.

Lemma matches_smart_alt_r (r s : Re.regex) (x : string) :
  Further.matches s x -> Further.matches (Re.alt r s) x.
Proof.
  intros Hx.
  destruct s; try (now apply matches_never in Hx);
    destruct r; simpl; try exact Hx; now apply Further.matches_alt_r.
Qed.

(** What is left of a match after its first character is a match of the
    derivative. *)
Lemma matches_deriv (r : Re.regex) (s : string) :
  Further.matches r s ->
  forall (c : ascii) (s' : string), s = String c s' -> Further.matches (Re.deriv c r) s'.
Proof.
  induction 1 as [|p d Hp|r s x y Hx IHx Hy IHy|r s x Hx IHx|r s x Hx IHx|r|r x y Hx IHx Hy IHy];
    intros c s' E.
  - discriminate.
  - injection E as -> <-. simpl. rewrite Hp. constructor.
  - cbn [Re.deriv]. destruct x as [|d x'].
    + simpl in E. rewrite (matches_nil_nullable r EmptyString Hx eq_refl).
      apply matches_smart_alt_r. now apply IHy.
    + rewrite append_cons in E. injection E as -> <-.
      apply matches_smart_alt_l. apply matches_smart_cat; [now apply IHx | exact Hy].
  - cbn [Re.deriv]. apply matches_smart_alt_l. now apply IHx.
  - cbn [Re.deriv]. apply matches_smart_alt_r. now apply IHx.
  - discriminate.
  - destruct x as [|d x'].
    + simpl in E. now apply IHy.
    + rewrite append_cons in E. injection E as -> <-.
      cbn [Re.deriv]. apply matches_smart_cat; [now apply IHx | exact Hy].
Qed.

(** The matcher finds every match. *)
Lemma fullmatch_complete (s : string) :
  forall r : Re.regex, Further.matches r s -> Re.fullmatch r s = true.
Proof.
  induction s as [|c s IH]; intros r H; simpl.
  - now apply (matches_nil_nullable r EmptyString).
  - apply IH. now apply (matches_deriv r (String c s)).
Qed.

Lemma matches_lit (k : string) : Further.matches (Re.lit k) k.
Proof.
  induction k as [|c k IH]; simpl; [constructor|].
  change (String c k) with (String c EmptyString +:+ k).
  apply Further.matches_cat; [|exact IH].
  constructor. apply Ascii.eqb_refl.
Qed.

Lemma matches_any (s : string) : Further.matches (Re.Star (Re.Chr Re.any_char)) s.
Proof.
  induction s as [|c s IH]; [constructor|].
  change (String c s) with (String c EmptyString +:+ s).
  apply Further.matches_star_cons; [now constructor | exact IH].
Qed.

(** A text is found wherever it stands in the line. *)
Lemma search_anywhere_lit (k a b : string) :
  Re.search (Re.anywhere (Re.lit k)) (a +:+ k +:+ b) = true.
Proof.
  unfold Re.search, Re.anywhere. cbn [Re.at_start Re.body Re.at_end].
  apply fullmatch_complete.
  apply Further.matches_cat; [apply matches_any|].
  apply Further.matches_cat; [apply matches_lit | apply matches_any].
Qed.

Lemma keyword_is_noise (k a b : string) :
  k ∈ Further.noise_keywords -> is_noise (a +:+ k +:+ b) = true.
Proof.
  intros Hk. unfold is_noise. apply existsb_exists.
  exists (Re.anywhere (Re.lit k)). split; [|apply search_anywhere_lit].
  unfold Further.noise_keywords in Hk.
  repeat (apply elem_of_cons in Hk as [->|Hk];
          [unfold noise_patterns; cbv zeta;
           repeat (first [left; reflexivity | right]) |]).
  inversion Hk.
Qed.

(** X17.  A line that contains one of the texts [DeprecationWarning],
    [RuntimeWarning], [docker.io/], [pytest not found] and the like, at any
    place and with anything around it, never reaches the console: the run
    prints no line in which such a text stands.  (The log file gets the
    line all the same.) *)
Theorem keyword_lines_never_printed (sh : host) (cmd : tool) (file : option string)
    (quiet : bool) (w : world) (lines : list string) (rc : Z) (fs' : gmap string node)
    (k : string) :
  k ∈ Further.noise_keywords ->
  (forall f, file = Some f -> files w !! f <> Some Denied) ->
  (forall f, file = Some f -> files w !! f = None -> write_refusal w !! f = None) ->
  popen sh cmd (log_to file (log_header sh cmd) (files w))
    = ({| stdout_lines := lines; returncode := rc |}, fs') ->
  writable file fs' ->
  exists w' new,
    run_command_write_to_file sh cmd file quiet w = (Ok rc, w')
    /\ console w' = console w ++ new
    /\ forall p a b, p ∈ new -> p <> a +:+ k +:+ b.
Proof.
  intros Hk N _ P W.
  destruct (run_command_spec sh cmd file quiet w lines rc fs' N P W)
    as (w' & E & _ & C & _).
  exists w', (printed quiet lines). split; [exact E|]. split; [exact C|].
  intros p a b Hp ->.
  pose proof (printed_not_noise quiet lines) as F.
  rewrite Forall_forall in F. specialize (F _ Hp).
  rewrite (keyword_is_noise k a b Hk) in F. discriminate.
Qed.

End Keywords.

(** ** [change_str] *)

Section ChangeStr.

Lemma replace_from_absent (old new : string) (s : string) :
  (forall a b, s <> a +:+ old +:+ b) ->
  Further.replace_from old new 0 s = s.
Proof.
  induction s as [|c s IH]; intros A; [reflexivity|].
  cbn [Further.replace_from].
  destruct (Str.startswith (String c s) old) eqn:E.
  - apply startswith_iff in E as [z Hz]. exfalso. apply (A EmptyString z). exact Hz.
  - f_equal. apply IH. intros a b ->. apply (A (String c a) b). reflexivity.
Qed.

(** X18.  [change_str] with a text that does not stand in the file, read
    as text: the call returns and the file holds what was read, that is its
    content with the line ends [\r\n] and [\r] turned into [\n]; a file
    without [\r] is as before, and so is all the rest. *)
Theorem change_str_without_occurrence (old new path content : string) (w : world) :
  files w !! path = Some (Regular content) ->
  old <> EmptyString ->
  (forall a b, Str.universal_newlines content <> a +:+ old +:+ b) ->
  exists w',
    Further.change_str old new path w = (Ok tt, w')
    /\ files w' !! path = Some (Regular (Str.universal_newlines content))
    /\ (Str.universal_newlines content = content -> w' = w).
Proof.
  intros R Ne A. unfold Further.change_str, bind at 1.
  rewrite read_text_spec. unfold Os.read, Os.write. rewrite R. cbn [fst].
  unfold Further.replace. rewrite (proj2 (is_empty_false old) Ne).
  rewrite (replace_from_absent old new _ A).
  eexists. split; [reflexivity|]. split; [apply lookup_insert_eq|].
  intros ->. destruct w as [fs co lk ev rr wr]. unfold set_files. simpl in *.
  f_equal. now apply insert_id.
Qed.

End ChangeStr.

Lemma contains_false_absent (s old : string) :
  Further.contains s old = false -> forall a b, s <> a +:+ old +:+ b.
Proof.
  intros C a. revert s C. induction a as [|c a IH]; intros s C b E.
  - assert (S : Str.startswith s old = true) by (apply startswith_iff; now exists b).
    destruct s; simpl in C; rewrite S in C; discriminate.
  - subst s. rewrite append_cons in C. cbn [Further.contains] in C.
    apply orb_false_iff in C as [_ C]. exact (IH _ C b eq_refl).
Qed.

(** A line with a deprecation warning in its middle, and a result line. *)
Lemma keyword_lines_never_printed_witness :
  let sh := Examples.printing
              [Examples.line "/usr/lib/x.py:3: DeprecationWarning: old call";
               Examples.line "test passed"] in
  "DeprecationWarning" ∈ Further.noise_keywords
  /\ exists w' new,
       RunTest.run_command_write_to_file sh Vvp None false Examples.blank = (Ok 0%Z, w')
       /\ console w' = console Examples.blank ++ new
       /\ forall p a b, p ∈ new -> p <> a +:+ "DeprecationWarning" +:+ b.
Proof.
  intros sh.
  assert (Hk : "DeprecationWarning" ∈ Further.noise_keywords)
    by (unfold Further.noise_keywords; repeat constructor).
  split; [exact Hk|].
  apply (keyword_lines_never_printed sh Vvp None false Examples.blank
           [Examples.line "/usr/lib/x.py:3: DeprecationWarning: old call";
            Examples.line "test passed"] 0 ∅ "DeprecationWarning" Hk).
  - intros f E. discriminate.
  - intros f E. discriminate.
  - reflexivity.
  - exact I.
Defined.

Lemma change_str_without_occurrence_witness :
  files Examples.two_files !! "rtl/a.v" = Some (Regular "module a; endmodule")
  /\ Further.contains "module a; endmodule" "wire" = false
  /\ Further.change_str "wire" "reg" "rtl/a.v" Examples.two_files
     = (Ok tt, Examples.two_files).
Proof.
  assert (R : files Examples.two_files !! "rtl/a.v" = Some (Regular "module a; endmodule"))
    by reflexivity.
  assert (C : Further.contains "module a; endmodule" "wire" = false) by reflexivity.
  split; [exact R|]. split; [exact C|].
  destruct (change_str_without_occurrence "wire" "reg" "rtl/a.v" "module a; endmodule"
              Examples.two_files R) as (w' & E & _ & Same).
  - discriminate.
  - now apply contains_false_absent.
  - rewrite E. f_equal. now apply Same.
Defined.
